(* ===== verification/_CoqProject ===== *)
-Q . S2P
Prelude.v
Geometry.v
MulArith.v
Mobject.v
Scene.v
SetupStages.v
ExecStages.v
FinalStages.v
Construct.v
Content.v
Errors.v
Examples.v
StagePlayer.v
Skeleton.v
