(* ===== verification/Prelude.v ===== *)
(** * A verification development of the 8086 MUL explainer animation

    The repository renders an educational video with the manim animation
    library.  [src/manim_8086_mul.py] defines one scene,
    [MUL8086Animation], whose [construct] method runs thirteen stage
    methods in sequence (intro, CPU overview, registers, memory and PC,
    fetch, decode, ALU, operand fetch, execute, write-back, flags,
    performance, summary); [src/test_manim.py] defines a three-call test
    scene.  The stages communicate in two ways: by the Python values they
    return and receive (the register groups, the memory cell, the ALU) and
    through the shared, mutable [Scene.mobjects] list, which several
    "detailed" wrappers filter with ad hoc predicates (font size, screen
    position) before delegating to the plain stage.

    ** What is modelled, and where

    - [Prelude] (this file): the libraries, an error-state monad with its
      notation ([x <- m ;; k] in [sm_scope]), its laws as a rewrite
      database, and the generic list lemmas the components share.
    - [Geometry]: the render configuration of lines 5-7 (1920x1080 at
      30 fps, frame height 8), points and bounding boxes over [Q], and the
      layout arithmetic manim performs for [get_critical_point],
      [move_to], [shift], [to_edge] and [next_to].
    - [Mobject]: the drawable objects the code creates ([Text],
      [Rectangle], [Arrow], [Dot], [VGroup]) as records in a store keyed
      by object identity (a [gmap nat]), so that aliasing is explicit:
      [ax_reg[2]] is the same object inside [ax_reg] and as the target of
      [Transform].  Families ([get_family]) are the reachability closure of
      the sub-object relation, computed by a bounded iteration whose bound
      is proved sufficient.  Text extents come from a [metrics] record: the
      font renderer is an external collaborator.
    - [Scene]: manim's [Scene.add], [Scene.remove] (with the restructuring
      that splits a group when one of its members is removed),
      [Scene.clear], [Scene.wait] and [Scene.play] with introducer and
      remover animations, as state transformers; the scene invariant
      (no duplicate and no nested top-level objects) and its preservation.

    - [MulArith]: what the displayed numbers mean: the 16-bit unsigned
      [MUL r/m16] ([Mul8086.mul16]: DX:AX := AX * src, CF = OF = DX <> 0)
      with its bounds, [0xFFFF]-style hexadecimal printing and parsing
      with their round trip, decimal with thousands separators, and the
      ModRM decoding of the bytes [F7 E3].  The source computes none of
      this; it is the reference the strings are checked against.
    - [SetupStages], [ExecStages], [FinalStages]: one definition per
      method of [MUL8086Animation] (the thirteen stages, the plain ones
      [construct] no longer calls, and the [_detailed] wrappers with their
      clean-up predicates), every call in source order, inside a Section
      whose [Context (M : metrics)] is the text renderer.  The strings
      that display numbers are named constants.
    - [Construct]: [construct] (lines 9-58) and [TestAnimation.construct];
      [after_stage M k] is the scene right after stage [k], obtained by
      raising [KeyboardInterrupt] from a probe placed after stage [k];
      [drawn] describes the drawn objects by kinds and texts.
    - [Content]: the displayed strings against [MulArith].
    - [Errors]: the error paths of the stages that index the groups they
      receive ([alu[2]], [ax_reg[2]]): through steps that return and keep
      the [VGroup] and its members ([members_are]) to the lookup that raises
      [IndexError] ([st_raises] and its rules in this file).
    - [Examples]: a two-rectangle group scene, the concrete input of the
      general theorems' witnesses.
    - [StagePlayer]: the specification's abstract stage player (stages
      that require, build, show and carry named entities; [CarryMismatch]
      and [BuildFailure]) with its contract.  It specifies the design;
      the source has no player, so nothing of the source is checked
      against it.
    - [Skeleton]: two runs of the same code with different text
      renderers, related step by step ([skel_rel]): the object graph
      ([skel]: the class and sub-objects of every object, the next
      identity and the clock) and the outcome agree, while positions and
      the objects drawn may differ.  Rules follow the code's structure (bind, loops,
      tuples), one lemma per stage.

    ** What the theorems show

    - The engine: [Scene.play_ok], [Scene.add_spec], [Scene.remove_spec]
      (the invariant, what is drawn after [add] and [remove]);
      [Scene.play_clock] (only [play([])] raises, and the clock advances
      by the longest run time); [Mobject.family_spec] (the computed family
      is the reachability relation); [Mobject.vg_add_spec] ([ValueError]
      on self-insertion, no duplicate sub-object);
      [SetupStages.remove_where_filter] (the heuristic clean-ups remove
      exactly the matching top-level objects).
    - The program, with the reference renderer [ref_metrics]: the
      invariant holds after every stage; the frames after the register,
      decode and last stages; the write-back consistent with MUL; and the
      defects: the PC label left without its arrow, register outlines set
      to width 0, the ZF box and the Execute cycle label outside the
      frame, the DX register hidden while its flags are explained.
    - The content: the detailed run's values, flags, summary and decoding
      agree with MUL on 0xFFFF x 0xFFFF; the unused plain stages show a
      wrong hexadecimal product, a wrong summary and wrong flags; the
      timing bars count 79 cycles where the texts say about 77.
    - Every renderer: [construct] runs to its end for every [metrics],
      ending with the objects and groups of the reference run
      ([Skeleton.construct_returns]): the renderer decides only where
      things are and which of them the position-based clean-ups remove.
      The timeline, thirteen stage end times and 153.8 s (4614 frames at
      30 fps) in all, is the same for every renderer
      ([Skeleton.timeline_any_renderer]).
    - Error paths: both execution stages raise [IndexError] at
      [alu[2]] on an ALU that is a [VGroup] of fewer than three parts,
      and both write-back stages at [ax_reg[2]] on such a register
      ([Errors.gear_lookup_error], [Errors.register_value_lookup_error]).
    - The specification: the player keeps exactly the carried entities
      at each exit, passes carried entities by identity, raises
      [CarryMismatch] before building and stops at the first failure
      (lemmas of [StagePlayer]; the source has no player to check against
      it).

    ** Bounds and fuel

    [family] iterates [fam_step] at most [S (child_count st)] times and
    stops at a fixed point; [fam_it_fixed] proves that [1 + |all
    children|] iterations reach the closure, so the result is the exact
    family ([family_spec]).  [restructure] recurses with fuel [1 + |all
    children|], more than the depth of any family tree in a forest; its
    specification is proved for that fuel.  [describe] uses the same
    bound.  [digits_rev], the digit loop of [f"{n}"], runs on fuel
    [n + 1], more than the number of digits of [n].  The whole-program
    theorems for [ref_metrics] are closed computations
    checked by [vm_compute], so no fuel bounds them.  Coordinates are exact
    rationals: the rounding of Python floats is not modelled.

    ** Not modelled

    Pixels, colours as rendered, rate functions and the interpolation of
    animations between their first and last frame (only the state an
    animation leaves is modelled), Bezier points (objects are bounding
    boxes), the Pango text renderer (a [metrics] parameter), and the
    Cairo renderer and video encoder.  The frame-by-frame theorems are
    proved for one text renderer, [ref_metrics]; termination and the
    object graph are proved for every renderer, and the engine theorems
    hold for every renderer. *)

From stdpp Require Export base list gmap sets strings.
From Stdlib Require Export QArith Qminmax Qabs Lqa.

(** ** An error-state monad

    The Python methods mutate [self] (the scene), return values and may
    raise; they are modelled as functions [S -> res E A * S], where
    [Err e] is an exception that aborts the rest of the script (nothing in
    the source catches one). *)

Inductive res (E A : Type) : Type :=
| Ok (a : A)
| Err (e : E).
Arguments Ok {E A} a.
Arguments Err {E A} e.

Definition st_m (S E A : Type) : Type := S -> res E A * S.

Definition st_ret {S E A} (a : A) : st_m S E A := fun s => (Ok a, s).

Definition st_bind {S E A B} (m : st_m S E A) (k : A -> st_m S E B) : st_m S E B :=
  fun s => match m s with
           | (Ok a, s') => k a s'
           | (Err e, s') => (Err e, s')
           end.

Definition st_raise {S E A} (e : E) : st_m S E A := fun s => (Err e, s).

Definition st_get {S E} : st_m S E S := fun s => (Ok s, s).

Definition st_gets {S E A} (f : S -> A) : st_m S E A := fun s => (Ok (f s), s).

Definition st_modify {S E} (f : S -> S) : st_m S E unit := fun s => (Ok tt, f s).

(** Running a computation: its final state and its outcome. *)
Definition st_exec {S E A} (m : st_m S E A) (s : S) : S := snd (m s).
Definition st_eval {S E A} (m : st_m S E A) (s : S) : res E A := fst (m s).

(** Iterating a computation over a list, as a Python [for] loop does. *)
Fixpoint st_for {S E A} (l : list A) (body : A -> st_m S E unit) : st_m S E unit :=
  match l with
  | [] => st_ret tt
  | x :: l' => st_bind (body x) (fun _ => st_for l' body)
  end.

Declare Scope sm_scope.
Delimit Scope sm_scope with sm.
Notation "x <- m ;; k" := (st_bind m (fun x => k))
  (at level 100, m at next level, right associativity) : sm_scope.
Notation "m ;; k" := (st_bind m (fun _ => k))
  (at level 100, right associativity) : sm_scope.

Section MonadLaws.
Context {S E : Type}.

Lemma st_bind_ret_l {A B} (a : A) (k : A -> st_m S E B) :
  st_bind (st_ret a) k = k a.
Proof. reflexivity. Qed.

Lemma st_bind_ret_r {A} (m : st_m S E A) (s : S) :
  st_bind m st_ret s = m s.
Proof. unfold st_bind, st_ret. by destruct (m s) as [[a|e] s']. Qed.

Lemma st_bind_assoc {A B C} (m : st_m S E A) (f : A -> st_m S E B)
      (g : B -> st_m S E C) (s : S) :
  st_bind (st_bind m f) g s = st_bind m (fun a => st_bind (f a) g) s.
Proof. unfold st_bind. by destruct (m s) as [[a|e] s']. Qed.

(** The state after [m >>= k]: [k] runs only when [m] returned. *)
Lemma st_exec_bind {A B} (m : st_m S E A) (k : A -> st_m S E B) (s : S) :
  st_exec (st_bind m k) s =
  match st_eval m s with
  | Ok a => st_exec (k a) (st_exec m s)
  | Err _ => st_exec m s
  end.
Proof. unfold st_exec, st_eval, st_bind. by destruct (m s) as [[a|e] s']. Qed.

Lemma st_eval_bind {A B} (m : st_m S E A) (k : A -> st_m S E B) (s : S) :
  st_eval (st_bind m k) s =
  match st_eval m s with
  | Ok a => st_eval (k a) (st_exec m s)
  | Err e => Err e
  end.
Proof. unfold st_exec, st_eval, st_bind. by destruct (m s) as [[a|e] s']. Qed.

(** A state predicate preserved by a computation, whatever its outcome:
    the rule the invariant proofs of the components use. *)
Definition st_preserves {A} (P : S -> Prop) (m : st_m S E A) : Prop :=
  forall s, P s -> P (st_exec m s).

Lemma st_preserves_ret {A} P (a : A) : st_preserves P (st_ret a).
Proof. by intros s Hs. Qed.

Lemma st_preserves_raise {A} P (e : E) : st_preserves P (@st_raise S E A e).
Proof. by intros s Hs. Qed.

Lemma st_preserves_gets {A} P (f : S -> A) : st_preserves P (st_gets f).
Proof. by intros s Hs. Qed.

Lemma st_preserves_bind {A B} P (m : st_m S E A) (k : A -> st_m S E B) :
  st_preserves P m -> (forall a, st_preserves P (k a)) ->
  st_preserves P (st_bind m k).
Proof.
  intros Hm Hk s Hs. rewrite st_exec_bind.
  destruct (st_eval m s); [apply Hk|]; apply Hm, Hs.
Qed.

Lemma st_preserves_for {A} P (l : list A) (body : A -> st_m S E unit) :
  (forall x, x ∈ l -> st_preserves P (body x)) ->
  st_preserves P (st_for l body).
Proof.
  induction l as [|x l IH]; intros Hb; simpl.
  - apply st_preserves_ret.
  - apply st_preserves_bind; [apply Hb; left|].
    intros _. apply IH. intros y Hy. apply Hb. by right.
Qed.
End MonadLaws.

Create HintDb sm_db.
Create Rewrite HintDb sm_rw.
#[export] Hint Rewrite @st_bind_ret_l @st_bind_ret_r @st_bind_assoc : sm_rw.
#[export] Hint Resolve st_preserves_ret st_preserves_raise st_preserves_gets : sm_db.

(** Proves [st_preserves P m] for a computation built from [st_bind],
    [st_ret] and [st_for] over steps that have a lemma in [sm_db]. *)
Ltac preserves_auto :=
  repeat first
    [ solve [eauto with sm_db]
    | apply st_preserves_ret
    | apply st_preserves_raise
    | apply st_preserves_gets
    | apply st_preserves_bind; [| intros ?]
    | apply st_preserves_for; intros ??
    | match goal with |- st_preserves _ (if ?b then _ else _) => destruct b end ].

(** ** Computations that never raise

    [st_ok m]: from every state, [m] returns normally.  The rules follow
    the structure of the computation, like those of [st_preserves]. *)

Section Totality.
Context {S E : Type}.

Definition st_ok {A} (m : st_m S E A) : Prop := forall s, exists a, st_eval m s = Ok a.

Lemma st_ok_ret {A} (a : A) : st_ok (@st_ret S E A a).
Proof. intros s. by exists a. Qed.

Lemma st_ok_gets {A} (f : S -> A) : st_ok (@st_gets S E A f).
Proof. intros s. by exists (f s). Qed.

Lemma st_ok_modify (f : S -> S) : st_ok (@st_modify S E f).
Proof. intros s. by exists tt. Qed.

Lemma st_ok_bind {A B} (m : st_m S E A) (k : A -> st_m S E B) :
  st_ok m -> (forall a, st_ok (k a)) -> st_ok (st_bind m k).
Proof.
  intros Hm Hk s. rewrite st_eval_bind. destruct (Hm s) as [a ->]. apply Hk.
Qed.

Lemma st_ok_for {A} (l : list A) (body : A -> st_m S E unit) :
  (forall x, x ∈ l -> st_ok (body x)) -> st_ok (st_for l body).
Proof.
  induction l as [|x l IH]; intros Hb; simpl; [apply st_ok_ret|].
  apply st_ok_bind; [apply Hb; left|]. intros _. apply IH. intros y Hy. apply Hb. by right.
Qed.

(** After a step that returned, the rest runs from its state. *)
Lemma st_exec_bind_ok {A B} (m : st_m S E A) (k : A -> st_m S E B) s a :
  st_eval m s = Ok a -> st_exec (st_bind m k) s = st_exec (k a) (st_exec m s).
Proof. intros H. by rewrite st_exec_bind, H. Qed.

Lemma st_eval_bind_ok {A B} (m : st_m S E A) (k : A -> st_m S E B) s a :
  st_eval m s = Ok a -> st_eval (st_bind m k) s = st_eval (k a) (st_exec m s).
Proof. intros H. by rewrite st_eval_bind, H. Qed.

Lemma st_preserves_modify (P : S -> Prop) f :
  (forall s, P s -> P (f s)) -> st_preserves P (@st_modify S E f).
Proof. intros Hf s. apply Hf. Qed.
(** An observation [f] of the state that [m] leaves unchanged,
    whatever the outcome. *)
Definition st_keeps {X A} (f : S -> X) (m : st_m S E A) : Prop :=
  forall x, st_preserves (fun s => f s = x) m.

Lemma st_keeps_modify {X} (f : S -> X) g :
  (forall s, f (g s) = f s) -> st_keeps f (@st_modify S E g).
Proof. intros Hg x. apply st_preserves_modify. intros s <-. apply Hg. Qed.

Lemma st_keeps_bind {X A B} (f : S -> X) (m : st_m S E A) (k : A -> st_m S E B) :
  st_keeps f m -> (forall a, st_keeps f (k a)) -> st_keeps f (st_bind m k).
Proof. intros Hm Hk x. apply st_preserves_bind; [apply Hm | intros a; apply Hk]. Qed.

Lemma st_keeps_for {X A} (f : S -> X) (l : list A) (body : A -> st_m S E unit) :
  (forall y, st_keeps f (body y)) -> st_keeps f (st_for l body).
Proof. intros Hb x. apply st_preserves_for. intros y _. apply Hb. Qed.

Lemma st_keeps_gets {X A} (f : S -> X) (g : S -> A) : st_keeps f (@st_gets S E A g).
Proof. intros x. apply st_preserves_gets. Qed.

Lemma st_keeps_ret {X A} (f : S -> X) (a : A) : st_keeps f (@st_ret S E A a).
Proof. intros x. apply st_preserves_ret. Qed.

Lemma st_keeps_raise {X A} (f : S -> X) (e : E) : st_keeps f (@st_raise S E A e).
Proof. intros x. apply st_preserves_raise. Qed.

(** [m] raises [e] from every state satisfying [P]: an error path.  It is
    reached through steps that return and keep [P], and then a step that
    raises. *)
Definition st_raises {A} (P : S -> Prop) (e : E) (m : st_m S E A) : Prop :=
  forall s, P s -> st_eval m s = Err e.

Lemma st_raises_here {A B} P e (m : st_m S E A) (k : A -> st_m S E B) :
  st_raises P e m -> st_raises P e (st_bind m k).
Proof. intros Hm s Hs. rewrite st_eval_bind. by rewrite (Hm s Hs). Qed.

Lemma st_raises_after {A B} P e (m : st_m S E A) (k : A -> st_m S E B) :
  st_ok m -> st_preserves P m -> (forall a, st_raises P e (k a)) -> st_raises P e (st_bind m k).
Proof.
  intros Hok Hp Hk s Hs. destruct (Hok s) as [a Ha].
  rewrite (st_eval_bind_ok _ _ _ a Ha). apply Hk. by apply Hp.
Qed.
End Totality.

Create HintDb ok_db.
#[export] Hint Resolve st_ok_ret st_ok_gets st_ok_modify : ok_db.
#[export] Hint Resolve st_keeps_gets st_keeps_ret st_keeps_raise : ok_db.

(** Proves [st_ok m] from the lemmas of [ok_db]. *)
Ltac ok_auto :=
  repeat first
    [ solve [eauto with ok_db]
    | apply st_ok_bind; [| intros ?]
    | apply st_ok_for; intros ??
    | match goal with |- st_ok (if ?b then _ else _) => destruct b end
    | match goal with |- st_ok (match ?x with _ => _ end) => destruct x end ].

(** Proves a decidable proposition about concrete values by evaluating
    its decision procedure. *)
Ltac decide_vm := apply (bool_decide_unpack _); vm_compute; reflexivity.

(** ** Generic list lemmas shared by the components *)

Section ListFacts.
Context {A : Type} `{EqDecision A}.

Lemma elem_of_flat_map {B} (f : A -> list B) (l : list A) (y : B) :
  y ∈ flat_map f l <-> exists x, x ∈ l /\ y ∈ f x.
Proof.
  induction l as [|x l IH]; simpl.
  - split; [set_solver | intros (? & Hx & _); set_solver].
  - rewrite elem_of_app, IH. split.
    + intros [Hy | (z & Hz & Hy)].
      * exists x. split; [left | done].
      * exists z. split; [by right | done].
    + intros (z & [-> | Hz]%elem_of_cons & Hy); eauto.
Qed.

Lemma NoDup_app_disjoint (l1 l2 : list A) :
  NoDup l1 -> NoDup l2 -> (forall x, x ∈ l1 -> x ∉ l2) -> NoDup (l1 ++ l2).
Proof. intros H1 H2 Hd. apply NoDup_app. naive_solver. Qed.

(** Python's [a not in l] on a list of object identities. *)
Definition mem_b (x : A) (l : list A) : bool := bool_decide (x ∈ l).

Lemma mem_b_true x l : mem_b x l = true <-> x ∈ l.
Proof. unfold mem_b. apply bool_decide_eq_true. Qed.
(** A filter that keeps every item is the identity. *)
Lemma filter_all (P : A -> Prop) `{!forall x, Decision (P x)} (l : list A) :
  (forall x, x ∈ l -> P x) -> filter P l = l.
Proof.
  induction l as [|x l IH]; intros Hl; [done|].
  rewrite filter_cons_True by (apply Hl; left). f_equal. apply IH. intros y Hy. apply Hl. by right.
Qed.
(** Filters that agree on the items of the list agree. *)
Lemma filter_ext_in (P Q : A -> Prop) `{!forall x, Decision (P x)} `{!forall x, Decision (Q x)}
      (l : list A) :
  (forall x, x ∈ l -> P x <-> Q x) -> filter P l = filter Q l.
Proof.
  induction l as [|x l IH]; intros Hl; [done|]. rewrite !filter_cons.
  rewrite IH by (intros y Hy; apply Hl; by right).
  pose proof (Hl x ltac:(left)). destruct (decide (P x)), (decide (Q x)); naive_solver.
Qed.
End ListFacts.
