(* ===== verification/Geometry.v ===== *)
(** * Geometry: the frame and manim's layout arithmetic

    The render configuration set at the top of [src/manim_8086_mul.py]
    (lines 4-7), points and axis-aligned bounding boxes over [Q], and the
    arithmetic behind manim's [get_critical_point], [get_center],
    [shift], [move_to], [to_edge] (via [align_on_border]) and [next_to].
    The Python code works on floating-point numpy arrays; the model uses
    exact rationals, so that the positional tests of the clean-up
    heuristics ([get_center()[0] > 2], ...) are decided exactly.  The
    third coordinate is always 0 in this program and is dropped.  Every
    arithmetic result is normalised with [Qred] so that computations stay
    small; the lemmas below are stated up to [Qeq]. *)

From S2P Require Import Prelude.

Local Open Scope Q_scope.

(** ** Render configuration *)

Record render_config := {
  pixel_height : Z;
  pixel_width : Z;
  frame_rate : Z;
  frame_height : Q;
}.

(** [config.pixel_height = 1080], [config.pixel_width = 1920],
    [config.frame_rate = 30]; manim's frame height is 8 units. *)
Definition config : render_config := {|
  pixel_height := 1080;
  pixel_width := 1920;
  frame_rate := 30;
  frame_height := 8;
|}.

(** manim keeps the frame's aspect ratio equal to the pixel aspect ratio. *)
Definition frame_width (c : render_config) : Q :=
  Qred (frame_height c * inject_Z (pixel_width c) / inject_Z (pixel_height c)).
Definition frame_x_radius (c : render_config) : Q := Qred (frame_width c * (1#2)).
Definition frame_y_radius (c : render_config) : Q := Qred (frame_height c * (1#2)).

(** The strict comparison of Python floats, as a boolean. *)
Definition Qlt_bool (a b : Q) : bool := negb (Qle_bool b a).

Lemma Qlt_bool_iff (a b : Q) : Qlt_bool a b = true <-> a < b.
Proof.
  unfold Qlt_bool. rewrite negb_true_iff. split.
  - intros H. apply Qnot_le_lt. intros Hle. apply Qle_bool_iff in Hle. congruence.
  - intros H. destruct (Qle_bool b a) eqn:E; [|done].
    apply Qle_bool_iff in E. exfalso. apply (Qlt_not_le a b); auto.
Qed.

(** ** Vectors *)

Record vec := V { vx : Q; vy : Q }.

Definition vadd (a b : vec) : vec := V (Qred (vx a + vx b)) (Qred (vy a + vy b)).
Definition vsub (a b : vec) : vec := V (Qred (vx a - vx b)) (Qred (vy a - vy b)).
Definition vscale (a : vec) (k : Q) : vec := V (Qred (vx a * k)) (Qred (vy a * k)).

Declare Scope vec_scope.
Delimit Scope vec_scope with vec.
Infix "+^" := vadd (at level 50, left associativity) : vec_scope.
Infix "-^" := vsub (at level 50, left associativity) : vec_scope.
Infix "*^" := vscale (at level 40, left associativity) : vec_scope.
Local Open Scope vec_scope.

(** manim's direction constants. *)
Definition ORIGIN : vec := V 0 0.
Definition UP : vec := V 0 1.
Definition DOWN : vec := V 0 (-1).
Definition LEFT : vec := V (-1) 0.
Definition RIGHT : vec := V 1 0.

(** Equality of points up to [Qeq]. *)
Definition veq (a b : vec) : Prop := vx a == vx b /\ vy a == vy b.

(** ** Bounding boxes *)

Record bbox := BB { bx_min : Q; bx_max : Q; by_min : Q; by_max : Q }.

(** A box of the given width and height centred at [c]: how manim
    creates every shape (at [ORIGIN]) before it is positioned. *)
Definition box_at (c : vec) (w h : Q) : bbox :=
  BB (Qred (vx c - w * (1#2))) (Qred (vx c + w * (1#2)))
     (Qred (vy c - h * (1#2))) (Qred (vy c + h * (1#2))).

(** [np.sign] on one coordinate. *)
Definition qsign (q : Q) : Q :=
  match Qcompare q 0 with Lt => -1 | Eq => 0 | Gt => 1 end.

(** One coordinate of [get_critical_point]: the minimum, the middle or the
    maximum of the extent, by the sign of the direction. *)
Definition crit_coord (lo hi d : Q) : Q :=
  match Qcompare d 0 with
  | Lt => lo
  | Eq => Qred ((lo + hi) * (1#2))
  | Gt => hi
  end.

Definition critical_point (b : bbox) (d : vec) : vec :=
  V (crit_coord (bx_min b) (bx_max b) (vx d)) (crit_coord (by_min b) (by_max b) (vy d)).

Definition center (b : bbox) : vec := critical_point b ORIGIN.
Definition top (b : bbox) : vec := critical_point b UP.
Definition bottom (b : bbox) : vec := critical_point b DOWN.
Definition left_pt (b : bbox) : vec := critical_point b LEFT.
Definition right_pt (b : bbox) : vec := critical_point b RIGHT.

Definition bbox_shift (b : bbox) (v : vec) : bbox :=
  BB (Qred (bx_min b + vx v)) (Qred (bx_max b + vx v))
     (Qred (by_min b + vy v)) (Qred (by_max b + vy v)).

(** The box of a family: the union of its members' boxes. *)
Definition bbox_union (a b : bbox) : bbox :=
  BB (Qmin (bx_min a) (bx_min b)) (Qmax (bx_max a) (bx_max b))
     (Qmin (by_min a) (by_min b)) (Qmax (by_max a) (by_max b)).

(** ** The shift vectors of manim's positioning methods *)

(** [move_to(point)] with the default [aligned_edge=ORIGIN]. *)
Definition move_to_shift (b : bbox) (p : vec) : vec := p -^ center b.

(** [to_edge(edge, buff)], i.e. [align_on_border]: the target point is
    [sign(direction) * (frame_x_radius, frame_y_radius)], and the shift is
    masked to the coordinates the direction names. *)
Definition to_edge_shift (c : render_config) (b : bbox) (d : vec) (buff : Q) : vec :=
  let target := V (qsign (vx d) * frame_x_radius c) (qsign (vy d) * frame_y_radius c) in
  let s := target -^ critical_point b d -^ d *^ buff in
  V (Qred (vx s * Qabs (qsign (vx d)))) (Qred (vy s * Qabs (qsign (vy d)))).

(** [next_to(mobject, direction, buff)] with [aligned_edge=ORIGIN]: the
    point of [self] opposite to the direction goes to the target's point
    in the direction, plus [buff] along it. *)
Definition vneg (d : vec) : vec := V (- vx d) (- vy d).

Definition next_to_shift (b target : bbox) (d : vec) (buff : Q) : vec :=
  critical_point target d -^ critical_point b (vneg d) +^ d *^ buff.

(** manim's default buffers. *)
Definition MED_SMALL_BUFF : Q := 1#4.
Definition DEFAULT_MOBJECT_TO_EDGE_BUFFER : Q := 1#2.

(** ** Arrows and dots *)

(** [Arrow(start, end)] shortens the segment by [buff = MED_SMALL_BUFF] at
    both ends and draws a tip whose default width is
    [DEFAULT_ARROW_TIP_LENGTH = 0.35] across the segment.  For horizontal
    and vertical arrows the box below is exact; for a slanted arrow the
    model takes the box of the unshortened segment (no square roots in
    [Q]): slanted arrows occur only as transient data paths, never in a
    positional test. *)
Definition DEFAULT_ARROW_TIP_WIDTH : Q := 35#100.

Definition arrow_endpoints (s e : vec) (buff : Q) : vec * vec :=
  let dx := vx e - vx s in
  let dy := vy e - vy s in
  if Qeq_bool dy 0 && negb (Qeq_bool dx 0) && Qlt_bool (2 * buff) (Qabs dx) then
    let u := V (qsign dx) 0 in (s +^ u *^ buff, e -^ u *^ buff)
  else if Qeq_bool dx 0 && negb (Qeq_bool dy 0) && Qlt_bool (2 * buff) (Qabs dy) then
    let u := V 0 (qsign dy) in (s +^ u *^ buff, e -^ u *^ buff)
  else (s, e).

Definition arrow_box (s e : vec) (buff : Q) : bbox :=
  let '(s', e') := arrow_endpoints s e buff in
  let hw := DEFAULT_ARROW_TIP_WIDTH * (1#2) in
  let b := BB (Qmin (vx s') (vx e')) (Qmax (vx s') (vx e'))
              (Qmin (vy s') (vy e')) (Qmax (vy s') (vy e')) in
  if Qeq_bool (vy e - vy s) 0 then BB (bx_min b) (bx_max b) (Qred (by_min b - hw)) (Qred (by_max b + hw))
  else if Qeq_bool (vx e - vx s) 0 then BB (Qred (bx_min b - hw)) (Qred (bx_max b + hw)) (by_min b) (by_max b)
  else b.

(** [DEFAULT_DOT_RADIUS = 0.08]. *)
Definition DEFAULT_DOT_RADIUS : Q := 8#100.

(** ** Inside the frame *)

Definition bbox_in_frame (c : render_config) (b : bbox) : bool :=
  Qle_bool (- frame_x_radius c) (bx_min b) && Qle_bool (bx_max b) (frame_x_radius c) &&
  Qle_bool (- frame_y_radius c) (by_min b) && Qle_bool (by_max b) (frame_y_radius c).

(** ** Layout lemmas *)

Lemma crit_coord_0 lo hi : crit_coord lo hi 0 = Qred ((lo + hi) * (1#2)).
Proof. reflexivity. Qed.
Lemma crit_coord_1 lo hi : crit_coord lo hi 1 = hi.
Proof. reflexivity. Qed.
Lemma crit_coord_m1 lo hi : crit_coord lo hi (-1) = lo.
Proof. reflexivity. Qed.

Lemma qsign_0 : qsign 0 = 0.
Proof. reflexivity. Qed.
Lemma qsign_1 : qsign 1 = 1.
Proof. reflexivity. Qed.
Lemma qsign_m1 : qsign (-1) = -1.
Proof. reflexivity. Qed.

(** The 1920x1080 frame is [128/9] units wide and 8 high. *)
Lemma frame_x_radius_config : frame_x_radius config = 64#9.
Proof. reflexivity. Qed.
Lemma frame_y_radius_config : frame_y_radius config = 4.
Proof. reflexivity. Qed.

Create Rewrite HintDb geo_rw.
Lemma Qabs_0 : Qabs 0 = 0.
Proof. reflexivity. Qed.
Lemma Qabs_1 : Qabs 1 = 1.
Proof. reflexivity. Qed.
Lemma Qabs_m1 : Qabs (-1) = 1.
Proof. reflexivity. Qed.

#[export] Hint Rewrite crit_coord_0 crit_coord_1 crit_coord_m1 qsign_0 qsign_1 qsign_m1
  Qabs_0 Qabs_1 Qabs_m1 frame_x_radius_config frame_y_radius_config : geo_rw.

(** Rewrites away every [Qred] and the record projections, leaving a goal
    over [Qeq] for [lra]. *)
Ltac qnorm :=
  cbn [vx vy bx_min bx_max by_min by_max center top bottom left_pt right_pt
       critical_point vadd vsub vscale vneg bbox_shift box_at
       ORIGIN UP DOWN LEFT RIGHT Qopp Z.opp frame_height config] in *;
  autorewrite with geo_rw in *;
  repeat rewrite Qred_correct in *.

(** Closes a linear goal over [Q] left by [qnorm]. *)
Ltac qsolve := first [ lra | ring | (ring_simplify; lra) ].


Lemma center_shift (b : bbox) (v : vec) :
  veq (center (bbox_shift b v)) (center b +^ v).
Proof. unfold veq. qnorm. split; qsolve. Qed.

(** [move_to(p)] puts the centre exactly at [p]. *)
Lemma move_to_center (b : bbox) (p : vec) :
  veq (center (bbox_shift b (move_to_shift b p))) p.
Proof. unfold veq, move_to_shift. qnorm. split; qsolve. Qed.

(** Shifting preserves the extents. *)
Lemma shift_extent (b : bbox) (v : vec) :
  bx_max (bbox_shift b v) - bx_min (bbox_shift b v) == bx_max b - bx_min b /\
  by_max (bbox_shift b v) - by_min (bbox_shift b v) == by_max b - by_min b.
Proof. qnorm. split; qsolve. Qed.

(** [next_to(target, UP, buff)]: the bottom of the object sits [buff]
    above the top of the target, and the two are centred horizontally;
    [DOWN] is symmetric. *)
Lemma next_to_up (b t : bbox) (buff : Q) :
  let b' := bbox_shift b (next_to_shift b t UP buff) in
  by_min b' == by_max t + buff /\ vx (center b') == vx (center t).
Proof. unfold next_to_shift. qnorm. split; qsolve. Qed.

Lemma next_to_down (b t : bbox) (buff : Q) :
  let b' := bbox_shift b (next_to_shift b t DOWN buff) in
  by_max b' == by_min t - buff /\ vx (center b') == vx (center t).
Proof. unfold next_to_shift. qnorm. split; qsolve. Qed.

Lemma next_to_left (b t : bbox) (buff : Q) :
  let b' := bbox_shift b (next_to_shift b t LEFT buff) in
  bx_max b' == bx_min t - buff /\ vy (center b') == vy (center t).
Proof. unfold next_to_shift. qnorm. split; qsolve. Qed.

Lemma next_to_right (b t : bbox) (buff : Q) :
  let b' := bbox_shift b (next_to_shift b t RIGHT buff) in
  bx_min b' == bx_max t + buff /\ vy (center b') == vy (center t).
Proof. unfold next_to_shift. qnorm. split; qsolve. Qed.

(** [to_edge(UP, buff)] puts the top [buff] below the frame's top edge
    and leaves the horizontal position alone; [LEFT] is symmetric. *)
Lemma to_edge_up (b : bbox) (buff : Q) :
  let b' := bbox_shift b (to_edge_shift config b UP buff) in
  by_max b' == 4 - buff /\ bx_min b' == bx_min b.
Proof. unfold to_edge_shift. qnorm. split; qsolve. Qed.

Lemma to_edge_left (b : bbox) (buff : Q) :
  let b' := bbox_shift b (to_edge_shift config b LEFT buff) in
  bx_min b' == - (64#9) + buff /\ by_min b' == by_min b.
Proof. unfold to_edge_shift. qnorm. split; qsolve. Qed.
