(* ===== verification/MulArith.v ===== *)
(** * The 8086 arithmetic the video displays

    The source computes nothing: the values it shows are string literals.
    This file states what they should be.  [Mul8086] is the 16-bit
    unsigned [MUL r/m16] of the 8086 (DX:AX := AX * src, CF = OF = 1 iff
    DX is not 0), [Hex] formats and parses the [0xFFFF]-style
    hexadecimal the video uses, [Decimal] writes numbers with thousands
    separators ([4,294,836,225]), and [Encoding] decodes the two
    instruction bytes [F7 E3] shown in memory and in IR.  The consistency
    of the displayed strings with these definitions is proved in
    [Content]. *)

From S2P Require Import Prelude.
From Stdlib Require Import ZArith Ascii String.

Local Open Scope Z_scope.

Module Mul8086.
Definition mask16 (x : Z) : Z := Z.land x (Z.ones 16).

Record mul_result := MulResult {
  res_ax : Z;
  res_dx : Z;
  res_cf : bool;
  res_of : bool;
}.

(** [MUL r/m16]: the 32-bit product of AX and the operand, its low word
    in AX and its high word in DX; CF and OF are set iff DX is not 0. *)
Definition mul16 (ax src : Z) : mul_result :=
  let p := mask16 ax * mask16 src in
  let hi := Z.shiftr p 16 in
  MulResult (Z.land p (Z.ones 16)) hi (negb (hi =? 0)) (negb (hi =? 0)).

Lemma mask16_range x : 0 <= mask16 x < 2 ^ 16.
Proof.
  unfold mask16. rewrite Z.land_ones by lia. apply Z.mod_pos_bound. lia.
Qed.

(** The two halves of the product, as quotient and remainder. *)
Lemma mul16_parts a b :
  res_ax (mul16 a b) = (mask16 a * mask16 b) mod 2 ^ 16 /\
  res_dx (mul16 a b) = (mask16 a * mask16 b) / 2 ^ 16 /\
  res_cf (mul16 a b) = negb ((mask16 a * mask16 b) / 2 ^ 16 =? 0) /\
  res_of (mul16 a b) = res_cf (mul16 a b).
Proof. cbn. rewrite Z.land_ones, Z.shiftr_div_pow2 by lia. done. Qed.

(** [mul16] leaves the full 32-bit product in DX:AX, each half
    within 16 bits. *)
Lemma mul16_spec a b :
  let r := mul16 a b in
  0 <= res_ax r < 2 ^ 16 /\ 0 <= res_dx r < 2 ^ 16 /\
  res_dx r * 2 ^ 16 + res_ax r = mask16 a * mask16 b.
Proof.
  cbv zeta. destruct (mul16_parts a b) as (-> & -> & _).
  pose proof (mask16_range a) as Ha. pose proof (mask16_range b) as Hb.
  split_and!.
  - apply Z.mod_pos_bound. lia.
  - apply Z.mod_pos_bound. lia.
  - apply Z.div_pos; nia.
  - apply Z.div_lt_upper_bound; [lia|]. nia.
  - rewrite Z.mul_comm. symmetry. apply Z.div_mod. lia.
Qed.

(** The carry and overflow flags of [mul16] are equal and say exactly
    that the product does not fit in 16 bits. *)
Lemma mul16_flags a b :
  res_cf (mul16 a b) = res_of (mul16 a b) /\
  (res_cf (mul16 a b) = true <-> 2 ^ 16 <= mask16 a * mask16 b).
Proof.
  destruct (mul16_parts a b) as (_ & _ & Hcf & Hof). rewrite Hof, Hcf.
  pose proof (mask16_range a). pose proof (mask16_range b).
  split; [done|]. rewrite negb_true_iff, Z.eqb_neq.
  split; intros Hp.
  - apply Z.nlt_ge. intros Hlt. apply Hp. apply Z.div_small. nia.
  - pose proof (Z.div_le_mono (2 ^ 16) (mask16 a * mask16 b) (2 ^ 16) ltac:(lia) Hp) as Hd.
    rewrite Z.div_same in Hd by lia. lia.
Qed.
End Mul8086.

Module Hex.
Definition hex_digit (n : Z) : Ascii.ascii :=
  Ascii.ascii_of_nat (Z.to_nat (if n <? 10 then 48 + n else 55 + n)).

Definition digit_value (c : Ascii.ascii) : option Z :=
  let n := Z.of_nat (Ascii.nat_of_ascii c) in
  if (48 <=? n) && (n <=? 57) then Some (n - 48)
  else if (65 <=? n) && (n <=? 70) then Some (n - 55)
  else if (97 <=? n) && (n <=? 102) then Some (n - 87)
  else None.

(** [k] hexadecimal digits of [v], most significant first. *)
Fixpoint digits (k : nat) (v : Z) : string :=
  match k with
  | O => EmptyString
  | S k' => String (hex_digit ((v / 16 ^ Z.of_nat k') mod 16)) (digits k' v)
  end.

Definition hex16 (v : Z) : string := "0x" +:+ digits 4 v.
Definition hex32 (v : Z) : string := "0x" +:+ digits 8 v.

Fixpoint parse_digits (s : string) (acc : Z) : option Z :=
  match s with
  | EmptyString => Some acc
  | String c r =>
      match digit_value c with
      | Some d => parse_digits r (16 * acc + d)
      | None => None
      end
  end.

(** ["0x"] followed by hexadecimal digits. *)
Definition parse_hex (s : string) : option Z :=
  match s with
  | String "0"%char (String "x"%char ds) => match ds with EmptyString => None | _ => parse_digits ds 0 end
  | _ => None
  end.

Lemma digit_value_hex_digit n : 0 <= n < 16 -> digit_value (hex_digit n) = Some n.
Proof.
  intros Hn.
  assert (Hall : Forall (fun k => digit_value (hex_digit k) = Some k) (Z.of_nat <$> seq 0 16))
    by (vm_compute; repeat constructor).
  rewrite Forall_forall in Hall. apply Hall.
  apply list_elem_of_fmap. exists (Z.to_nat n). split; [lia|]. apply elem_of_seq. lia.
Qed.

Lemma parse_digits_app k v acc :
  0 <= v ->
  parse_digits (digits k v) acc = Some (acc * 16 ^ Z.of_nat k + v mod 16 ^ Z.of_nat k).
Proof.
  revert acc. induction k as [|k IH]; intros acc Hv.
  - cbn. rewrite Z.mod_1_r. f_equal. lia.
  - cbn [digits parse_digits].
    rewrite digit_value_hex_digit by (apply Z.mod_pos_bound; lia).
    rewrite IH by done. f_equal.
    rewrite Nat2Z.inj_succ, Z.pow_succ_r by lia.
    pose proof (Z.pow_pos_nonneg 16 (Z.of_nat k) ltac:(lia) ltac:(lia)) as Hp.
    rewrite (Z.mul_comm 16 (16 ^ Z.of_nat k)), (Z.rem_mul_r v (16 ^ Z.of_nat k) 16) by lia.
    nia.
Qed.

(** Printing with [hex16] then parsing with [parse_hex] gives the
    value back, for every 16-bit value. *)
Lemma parse_hex16 v : 0 <= v < 2 ^ 16 -> parse_hex (hex16 v) = Some v.
Proof.
  intros Hv. unfold hex16, parse_hex.
  assert (parse_digits (digits 4 v) 0 = Some v) as E.
  { rewrite parse_digits_app by lia. rewrite Z.mod_small by (cbn; lia). done. }
  revert E. cbn [digits String.append]. done.
Qed.
End Hex.

Module Decimal.
(** Decimal digits of a non-negative number. *)
Fixpoint dec_rev (fuel : nat) (v : Z) : list Ascii.ascii :=
  match fuel with
  | O => []
  | S f => Ascii.ascii_of_nat (Z.to_nat (48 + v mod 10)) ::
             (if v <? 10 then [] else dec_rev f (v / 10))
  end.

(** Groups of three digits separated by commas, as in [65,535]. *)
Fixpoint group3 (l : list Ascii.ascii) : list Ascii.ascii :=
  match l with
  | a :: b :: c :: (_ :: _) as r => a :: b :: c :: ","%char :: group3 r
  | _ => l
  end.

Definition dec (v : Z) : string := String.string_of_list_ascii (rev (dec_rev 20 v)).
Definition dec_commas (v : Z) : string :=
  String.string_of_list_ascii (rev (group3 (dec_rev 20 v))).
End Decimal.

Module Encoding.
(** The fields of a ModRM byte. *)
Definition modrm_mod (b : Z) : Z := Z.shiftr b 6.
Definition modrm_reg (b : Z) : Z := Z.land (Z.shiftr b 3) 7.
Definition modrm_rm (b : Z) : Z := Z.land b 7.

Inductive reg16 := AX | CX | DX | BX | SP | BP | SI | DI.

Definition reg16_of (n : Z) : reg16 :=
  match n with
  | 0 => AX | 1 => CX | 2 => DX | 3 => BX | 4 => SP | 5 => BP | 6 => SI | _ => DI
  end.

Inductive grp3 := TEST | NOT | NEG | MUL | IMUL | DIV | IDIV.

(** Opcode [F7] is group 3 on a 16-bit operand; the [reg] field of the
    ModRM byte selects the operation ([/4] is MUL). *)
Definition grp3_of (n : Z) : option grp3 :=
  match n with
  | 0 => Some TEST | 2 => Some NOT | 3 => Some NEG | 4 => Some MUL
  | 5 => Some IMUL | 6 => Some DIV | 7 => Some IDIV | _ => None
  end.

(** Decoding of a register-direct ([mod = 3]) group-3 instruction. *)
Definition decode (op modrm : Z) : option (grp3 * reg16) :=
  if (op =? 247) && (modrm_mod modrm =? 3) then
    match grp3_of (modrm_reg modrm) with
    | Some g => Some (g, reg16_of (modrm_rm modrm))
    | None => None
    end
  else None.

(** The [k] low bits of [v] in binary, most significant first. *)
Fixpoint bin (k : nat) (v : Z) : string :=
  match k with
  | O => EmptyString
  | S k' => String (if Z.testbit v (Z.of_nat k') then "1" else "0")%char (bin k' v)
  end.
End Encoding.
