(* ===== verification/Mobject.v ===== *)
(** * Mobjects: the drawable objects and their store

    The objects the code creates ([Text], [Rectangle], [Arrow], [Dot],
    [VGroup]) live in a store keyed by object identity, as Python objects
    live in the heap: [ax_reg = VGroup(ax_box, ax_label, ax_value,
    ax_desc)] holds the identities of its four members, and [ax_reg[2]]
    names the same object wherever it is used.  The scene state of manim
    ([Scene.mobjects], the clock, the background) is a record beside the
    store.  Families ([Mobject.get_family]) are the reachability closure
    of the sub-object relation; the closure is computed by iterating a
    step a bounded number of times, and the bound is proved to reach the
    fixed point ([family_closed]).  Positioning and styling act on a whole
    family, as manim's methods do.  Text extents are supplied by a
    [metrics] record, the model of the font renderer. *)

From S2P Require Import Prelude Geometry.

Local Open Scope Q_scope.
Local Open Scope vec_scope.

(** ** Data *)

(** The arguments of [Text(...)] that determine its extent. *)
Record text_spec := TS {
  t_text : string;
  t_font_size : Q;
  t_line_spacing : Q;
  t_bold : bool;
}.

(** The font renderer: width and height of a rendered text. *)
Record metrics := {
  text_width : text_spec -> Q;
  text_height : text_spec -> Q;
}.

Inductive shape :=
| SText (t : text_spec)
| SRect (w h : Q)
| SArrow (s e : vec)
| SDot
| SGroup.

Record style := Style {
  st_color : string;
  st_fill_opacity : Q;
  st_stroke_color : string;
  st_stroke_width : Q;
  st_stroke_opacity : Q;
}.

(** One object: its kind, its sub-objects (identities), the box of its own
    points ([None] for a [VGroup], which has none) and its style. *)
Record mob := Mob {
  m_shape : shape;
  m_subs : list nat;
  m_box : option bbox;
  m_style : style;
}.

(** The exceptions the code can raise through manim, and the interrupt
    (Python's [KeyboardInterrupt]) by which the development stops the
    script at a stage boundary to observe the scene there. *)
Inductive exn :=
| IndexError
| ValueError
| KeyboardInterrupt.

(** The state of a running [Scene]: the object store, the next fresh
    identity, [Scene.mobjects] (the top-level objects drawn, in order),
    the elapsed video time in seconds and the background colour. *)
Record scene := Scene {
  sc_store : gmap nat mob;
  sc_next : nat;
  sc_mobjects : list nat;
  sc_time : Q;
  sc_background : string;
}.

Abbreviation SM := (st_m scene exn).

Definition empty_scene : scene := Scene ∅ 0 [] 0 "#000000".

Definition set_store (st : gmap nat mob) (s : scene) : scene :=
  Scene st (sc_next s) (sc_mobjects s) (sc_time s) (sc_background s).
Definition set_mobjects (l : list nat) (s : scene) : scene :=
  Scene (sc_store s) (sc_next s) l (sc_time s) (sc_background s).

(** ** Families *)

Definition children (st : gmap nat mob) (i : nat) : list nat :=
  from_option m_subs [] (st !! i).

(** Every identity that occurs as a sub-object somewhere in the store. *)
Definition all_children (st : gmap nat mob) : gset nat :=
  ⋃ ((fun kv : nat * mob => list_to_set (m_subs kv.2)) <$> map_to_list st).

Definition fam_step (st : gmap nat mob) (s : gset nat) : gset nat :=
  s ∪ ⋃ ((fun i => list_to_set (children st i)) <$> elements s).

(** The number of sub-object occurrences in the store: a cheap bound on
    the size of [all_children]. *)
Definition child_count (st : gmap nat mob) : nat :=
  foldr (fun kv n => length (m_subs kv.2) + n)%nat 0%nat (map_to_list st).

(** Iterate [fam_step] at most [fuel] times, stopping at a fixed point. *)
Fixpoint fam_close (st : gmap nat mob) (fuel : nat) (s : gset nat) : gset nat :=
  match fuel with
  | O => s
  | S f => let s' := fam_step st s in
           if bool_decide (s' = s) then s else fam_close st f s'
  end.

(** [get_family()]: as a set of identities. *)
Definition family (st : gmap nat mob) (i : nat) : gset nat :=
  fam_close st (S (child_count st)) {[i]}.

Section FamilyFacts.
Context (st : gmap nat mob).

Lemma children_all c i : c ∈ children st i -> c ∈ all_children st.
Proof.
  unfold children, all_children. destruct (st !! i) as [m|] eqn:E; simpl; [|set_solver].
  intros Hc. apply elem_of_union_list. exists (list_to_set (m_subs m)). split.
  - apply list_elem_of_fmap. exists (i, m). split; [done|]. by apply elem_of_map_to_list.
  - by apply elem_of_list_to_set.
Qed.

Lemma elem_of_fam_step x s :
  x ∈ fam_step st s <-> x ∈ s \/ exists y, y ∈ s /\ x ∈ children st y.
Proof.
  unfold fam_step. rewrite elem_of_union, elem_of_union_list. split.
  - intros [Hx | (X & HX & Hx)]; [by left|right].
    apply list_elem_of_fmap in HX as (y & -> & Hy).
    apply elem_of_elements in Hy. apply elem_of_list_to_set in Hx. eauto.
  - intros [Hx | (y & Hy & Hx)]; [by left|right].
    exists (list_to_set (children st y)). split; [|by apply elem_of_list_to_set].
    apply list_elem_of_fmap. exists y. split; [done|]. by apply elem_of_elements.
Qed.

Lemma fam_step_incl s : s ⊆ fam_step st s.
Proof. intros x Hx. apply elem_of_fam_step. by left. Qed.

Lemma fam_step_mono s t : s ⊆ t -> fam_step st s ⊆ fam_step st t.
Proof. intros H x. rewrite !elem_of_fam_step. intros [Hx | (y & Hy & Hx)]; eauto. Qed.

Lemma fam_step_bound s B : s ⊆ B ∪ all_children st -> fam_step st s ⊆ B ∪ all_children st.
Proof.
  intros H x Hx. apply elem_of_fam_step in Hx as [Hx | (y & _ & Hx)]; [by apply H|].
  apply elem_of_union. right. by eapply children_all.
Qed.

Definition fam_it (i : nat) (k : nat) : gset nat := Nat.iter k (fam_step st) {[i]}.

Lemma fam_it_S i k : fam_it i (S k) = fam_step st (fam_it i k).
Proof. reflexivity. Qed.

Lemma fam_it_bound i k : fam_it i k ⊆ {[i]} ∪ all_children st.
Proof.
  induction k as [|k IH]; [set_solver|]. rewrite fam_it_S. by apply fam_step_bound.
Qed.

Lemma fam_it_stable i k m :
  fam_step st (fam_it i k) = fam_it i k -> fam_it i (m + k) = fam_it i k.
Proof.
  intros Hfix. induction m as [|m IH]; [done|].
  change (fam_it i (S m + k)) with (fam_step st (fam_it i (m + k))). by rewrite IH.
Qed.

(** Until it is stable, the iteration gains an element at every step. *)
Lemma fam_it_grows i k : fam_it i (S k) = fam_it i k \/ (k < size (fam_it i k))%nat.
Proof.
  induction k as [|k IH].
  - right. change (fam_it i 0) with ({[i]} : gset nat). rewrite size_singleton. lia.
  - destruct (decide (fam_it i (S (S k)) = fam_it i (S k))) as [Heq|Hne]; [by left|right].
    destruct IH as [Hst | Hlt].
    + exfalso. apply Hne. rewrite fam_it_S, Hst. done.
    + assert (fam_it i k ⊂ fam_it i (S k)) as Hsub.
      { split; [apply fam_step_incl|]. intros Hle.
        assert (fam_it i (S k) = fam_it i k) as Heq.
        { apply set_eq_subseteq. split; [done|apply fam_step_incl]. }
        apply Hne. rewrite (fam_it_S i (S k)), Heq. exact Heq. }
      apply subset_size in Hsub. lia.
Qed.

(** Stopping early at a fixed point computes the same set. *)
Lemma fam_close_it i n k : fam_close st n (fam_it i k) = fam_it i (n + k).
Proof.
  revert k. induction n as [|n IH]; intros k; [done|]. simpl.
  case_bool_decide as Hfix.
  - symmetry. exact (fam_it_stable i k (S n) Hfix).
  - rewrite <- fam_it_S, IH, Nat.add_succ_r. done.
Qed.

Lemma size_list_to_set_le (l : list nat) : (size (list_to_set l : gset nat) <= length l)%nat.
Proof.
  induction l as [|x l IH]; cbn [list_to_set length]; [by rewrite size_empty|].
  rewrite size_union_alt, size_singleton.
  match goal with |- context [size (?A ∖ ?B)] =>
    pose proof (subseteq_size (A ∖ B) A ltac:(set_solver)) end. lia.
Qed.

Lemma all_children_size : (size (all_children st) <= child_count st)%nat.
Proof.
  unfold all_children, child_count. induction (map_to_list st) as [|kv l IH].
  - cbn [fmap list_fmap union_list foldr]. by rewrite size_empty.
  - rewrite fmap_cons. cbn [union_list foldr]. rewrite size_union_alt.
    pose proof (size_list_to_set_le (m_subs kv.2)).
    match goal with |- context [size (?A ∖ ?B)] =>
      pose proof (subseteq_size (A ∖ B) A ltac:(set_solver)) end. lia.
Qed.

(** The iteration is stable once it has run one step more than the
    number of sub-object identities. *)
Lemma fam_it_fixed i : fam_step st (fam_it i (S (size (all_children st)))) =
                       fam_it i (S (size (all_children st))).
Proof.
  set (N := size (all_children st)).
  destruct (fam_it_grows i (S N)) as [Hst | Hlt]; [done|].
  exfalso. pose proof (subseteq_size _ _ (fam_it_bound i (S N))) as Hle.
  pose proof (size_union_alt {[i]} (all_children st)) as Hu.
  rewrite size_singleton in Hu.
  pose proof (subseteq_size (all_children st ∖ {[i]}) (all_children st)
                ltac:(set_solver)). subst N. lia.
Qed.

Lemma family_it i : family st i = fam_it i (S (size (all_children st))).
Proof.
  unfold family. change ({[i]} : gset nat) with (fam_it i 0).
  rewrite fam_close_it, Nat.add_0_r.
  pose proof all_children_size as Hle.
  replace (S (child_count st)) with ((child_count st - size (all_children st)) +
                                      S (size (all_children st)))%nat by lia.
  apply fam_it_stable, fam_it_fixed.
Qed.

Lemma fam_step_family i : fam_step st (family st i) = family st i.
Proof. rewrite family_it. apply fam_it_fixed. Qed.

Lemma family_self i : i ∈ family st i.
Proof.
  rewrite family_it. unfold fam_it. generalize (S (size (all_children st))) as n.
  induction n as [|n IH]; simpl; [set_solver|]. by apply fam_step_incl.
Qed.

(** The family is closed under taking sub-objects. *)
Lemma family_closed i x c : x ∈ family st i -> c ∈ children st x -> c ∈ family st i.
Proof.
  intros Hx Hc. rewrite <- fam_step_family. apply elem_of_fam_step. eauto.
Qed.

(** ... and it is the least such set. *)
Lemma family_least i (T : gset nat) :
  i ∈ T -> (forall x c, x ∈ T -> c ∈ children st x -> c ∈ T) -> family st i ⊆ T.
Proof.
  intros Hi Hcl. rewrite family_it. unfold fam_it. generalize (S (size (all_children st))) as n.
  induction n as [|n IH]; simpl; [set_solver|].
  intros x Hx. apply elem_of_fam_step in Hx as [Hx | (y & Hy & Hx)]; eauto.
Qed.

Lemma family_trans i x : x ∈ family st i -> family st x ⊆ family st i.
Proof.
  intros Hx. apply family_least; [done|]. intros y c Hy Hc. by eapply family_closed.
Qed.

Lemma family_child i c : c ∈ children st i -> family st c ⊆ family st i.
Proof.
  intros Hc. apply family_trans. eapply family_closed; [apply family_self|done].
Qed.
End FamilyFacts.

(** [get_family()] as a relation: [i] itself and, recursively, the
    sub-objects of every object reached. *)
Inductive reach (st : gmap nat mob) (i : nat) : nat -> Prop :=
| reach_self : reach st i i
| reach_child x c : reach st i x -> c ∈ children st x -> reach st i c.

(** [family], computed by iterating [fam_step] until it stabilises, is
    exactly the set of objects reachable through sub-object lists. *)
Theorem family_spec st i x : x ∈ family st i <-> reach st i x.
Proof.
  split.
  - rewrite family_it. unfold fam_it. generalize (S (size (all_children st))) as n.
    intros n. revert x. induction n as [|n IH]; intros x Hx; simpl in Hx.
    + apply elem_of_singleton in Hx as ->. constructor.
    + apply elem_of_fam_step in Hx as [Hx | (y & Hy & Hc)]; [by apply IH|].
      eapply reach_child; [apply IH|]; done.
  - induction 1; [apply family_self | eapply family_closed; eauto].
Qed.

(** Two stores with the same sub-object relation have the same families:
    moving or restyling objects never changes a family. *)
Lemma family_ext (st1 st2 : gmap nat mob) i :
  (forall j, children st1 j = children st2 j) -> family st1 i = family st2 i.
Proof.
  intros Hch. apply set_eq_subseteq. split; apply family_least;
    try apply family_self; intros x c Hx Hc; eapply family_closed; eauto;
    [rewrite <- Hch | rewrite Hch]; done.
Qed.

(** ** Acting on a family in the store *)

(** Apply [f] to every object whose identity is in [F]. *)
Definition store_map_on (F : gset nat) (f : mob -> mob) (st : gmap nat mob) : gmap nat mob :=
  map_imap (fun j m => Some (if bool_decide (j ∈ F) then f m else m)) st.

Lemma store_map_on_lookup F f st j :
  store_map_on F f st !! j = if bool_decide (j ∈ F) then f <$> st !! j else st !! j.
Proof.
  unfold store_map_on. rewrite map_lookup_imap.
  destruct (st !! j); simpl; by case_bool_decide.
Qed.

(** A map that keeps sub-object lists keeps every family. *)
Lemma store_map_on_children F f st :
  (forall m, m_subs (f m) = m_subs m) ->
  forall j, children (store_map_on F f st) j = children st j.
Proof.
  intros Hf j. unfold children. rewrite store_map_on_lookup.
  case_bool_decide; [|done]. destruct (st !! j); simpl; [apply Hf|done].
Qed.

Lemma store_map_on_family F f st i :
  (forall m, m_subs (f m) = m_subs m) ->
  family (store_map_on F f st) i = family st i.
Proof. intros Hf. apply family_ext, store_map_on_children, Hf. Qed.

Definition shift_shape (v : vec) (sh : shape) : shape :=
  match sh with
  | SArrow s e => SArrow (s +^ v) (e +^ v)
  | _ => sh
  end.

Definition shift_leaf (v : vec) (m : mob) : mob :=
  Mob (shift_shape v (m_shape m)) (m_subs m) ((fun b => bbox_shift b v) <$> m_box m) (m_style m).

(** [set_stroke(color, width, opacity)]: an argument left at [None] keeps
    the current value. *)
Definition stroke_leaf (c : option string) (w o : option Q) (m : mob) : mob :=
  let s := m_style m in
  Mob (m_shape m) (m_subs m) (m_box m)
      (Style (st_color s) (st_fill_opacity s) (default (st_stroke_color s) c)
             (default (st_stroke_width s) w) (default (st_stroke_opacity s) o)).

(** The box of all the points of a family ([get_all_points]); [None]
    when no member has points. *)
Definition family_box (st : gmap nat mob) (i : nat) : option bbox :=
  set_fold (fun j acc =>
              match st !! j ≫= m_box with
              | Some b => Some (from_option (bbox_union b) b acc)
              | None => acc
              end) None (family st i).

(** manim returns the origin as every critical point of an object
    without points. *)
Definition bbox_of (s : scene) (i : nat) : bbox :=
  default (BB 0 0 0 0) (family_box (sc_store s) i).

(** ** Creating objects *)

Definition new_mob (m : mob) : SM nat :=
  fun s => (Ok (sc_next s),
            Scene (<[sc_next s := m]> (sc_store s)) (S (sc_next s))
                  (sc_mobjects s) (sc_time s) (sc_background s)).

(** manim's [DEFAULT_STROKE_WIDTH]. *)
Definition DEFAULT_STROKE_WIDTH : Q := 4.

(** [Text(text, font_size=..., color=...)]: filled, no stroke, centred on
    the origin with the extent the renderer gives. *)
Definition Text (M : metrics) (t : text_spec) (color : string) : SM nat :=
  new_mob (Mob (SText t) [] (Some (box_at ORIGIN (text_width M t) (text_height M t)))
               (Style color 1 color 0 1)).

(** The [text_spec] of [Text(s, font_size=fs)] with the default line
    spacing ([-1] in manim's signature) and weight. *)
Definition txt (s : string) (fs : Q) : text_spec := TS s fs (-1) false.

(** [Rectangle(width, height, color, fill_opacity)]. *)
Definition Rectangle (w h : Q) (color : string) (fill_opacity : Q) : SM nat :=
  new_mob (Mob (SRect w h) [] (Some (box_at ORIGIN w h))
               (Style color fill_opacity color DEFAULT_STROKE_WIDTH 1)).

(** [Arrow(start, end, color, stroke_width)] with the default buff. *)
Definition Arrow (s e : vec) (color : string) (stroke_width : Q) : SM nat :=
  let '(s', e') := arrow_endpoints s e MED_SMALL_BUFF in
  new_mob (Mob (SArrow s' e') [] (Some (arrow_box s e MED_SMALL_BUFF))
               (Style color 1 color stroke_width 1)).

(** [Dot(color=...)] at the origin. *)
Definition Dot (color : string) : SM nat :=
  new_mob (Mob SDot [] (Some (box_at ORIGIN (2 * DEFAULT_DOT_RADIUS) (2 * DEFAULT_DOT_RADIUS)))
               (Style color 1 color 0 1)).

(** [remove_list_redundancies]: keeps the last occurrence of each item. *)
Definition remove_list_redundancies (l : list nat) : list nat :=
  reverse (foldl (fun acc x => if mem_b x acc then acc else acc ++ [x]) [] (reverse l)).

(** [list_update(l1, l2)]: the items of [l1] not in [l2], then [l2]. *)
Definition list_update (l1 l2 : list nat) : list nat :=
  filter (fun x => x ∉ l2) l1 ++ l2.

(** [Mobject.add(mobjects...)]: a group cannot contain itself. *)
Definition vg_add (g : nat) (l : list nat) : SM unit :=
  fun s =>
    if mem_b g l then (Err ValueError, s)
    else match sc_store s !! g with
         | Some m =>
             (Ok tt, set_store (<[g := Mob (m_shape m) (list_update (m_subs m)
                                    (remove_list_redundancies l)) (m_box m) (m_style m)]>
                                (sc_store s)) s)
         | None => (Err ValueError, s)
         end.

(** [VGroup(vmobjects...)]: a fresh group, then [add]. *)
Definition VGroup (l : list nat) : SM nat :=
  st_bind (new_mob (Mob SGroup [] None (Style "#FFFFFF" 0 "#FFFFFF" DEFAULT_STROKE_WIDTH 1)))
          (fun g => st_bind (vg_add g l) (fun _ => st_ret g)).

(** [mobject.copy()]: the source copies only [Text] objects, which have no
    modelled sub-objects; the copy is a fresh object with the same shape,
    points and style. *)
Definition copy (i : nat) : SM nat :=
  fun s => match sc_store s !! i with
           | Some m => new_mob (Mob (m_shape m) [] (m_box m) (m_style m)) s
           | None => (Err ValueError, s)
           end.

(** [group[k]] on a [VGroup], the only objects the source indexes: a
    [VGroup] has no points of its own, so manim's [split()] is its list of
    sub-objects and an index out of range raises [IndexError].  Indexing
    a [Text] or an [Arrow] would reach their glyph or tip sub-objects,
    which the model does not have. *)
Definition getitem (g : nat) (k : nat) : SM nat :=
  fun s => match children (sc_store s) g !! k with
           | Some c => (Ok c, s)
           | None => (Err IndexError, s)
           end.

(** ** Positioning and styling *)

Definition shift (i : nat) (v : vec) : SM unit :=
  st_modify (fun s => set_store (store_map_on (family (sc_store s) i) (shift_leaf v)
                                              (sc_store s)) s).

Definition get_critical_point (i : nat) (d : vec) : SM vec :=
  st_gets (fun s => critical_point (bbox_of s i) d).
Definition get_center (i : nat) : SM vec := get_critical_point i ORIGIN.
Definition get_top (i : nat) : SM vec := get_critical_point i UP.
Definition get_bottom (i : nat) : SM vec := get_critical_point i DOWN.
Definition get_left (i : nat) : SM vec := get_critical_point i LEFT.
Definition get_right (i : nat) : SM vec := get_critical_point i RIGHT.

(** [get_start()] / [get_end()] of an arrow: its endpoints after the
    buff; of any other object, its centre. *)
Definition get_start (i : nat) : SM vec :=
  st_gets (fun s => match m_shape <$> sc_store s !! i with
                    | Some (SArrow a _) => a
                    | _ => center (bbox_of s i)
                    end).
Definition get_end (i : nat) : SM vec :=
  st_gets (fun s => match m_shape <$> sc_store s !! i with
                    | Some (SArrow _ b) => b
                    | _ => center (bbox_of s i)
                    end).

Definition move_to (i : nat) (p : vec) : SM unit :=
  st_bind (st_gets (fun s => move_to_shift (bbox_of s i) p)) (shift i).

Definition to_edge (i : nat) (d : vec) (buff : Q) : SM unit :=
  st_bind (st_gets (fun s => to_edge_shift config (bbox_of s i) d buff)) (shift i).

Definition next_to (i j : nat) (d : vec) (buff : Q) : SM unit :=
  st_bind (st_gets (fun s => next_to_shift (bbox_of s i) (bbox_of s j) d buff)) (shift i).

Definition set_stroke (i : nat) (c : option string) (w o : option Q) : SM unit :=
  st_modify (fun s => set_store (store_map_on (family (sc_store s) i) (stroke_leaf c w o)
                                              (sc_store s)) s).

(** The end state of [Transform(i, j)] on two leaves: [i] keeps its
    identity and its place in every group and takes the shape, points and
    style of [j]. *)
Definition become (i j : nat) : SM unit :=
  st_modify (fun s =>
    match sc_store s !! i, sc_store s !! j with
    | Some mi, Some mj =>
        set_store (<[i := Mob (m_shape mj) (m_subs mi) (m_box mj) (m_style mj)]> (sc_store s)) s
    | _, _ => s
    end).

(** ** Helpers for the stage code *)

(** A Python string literal with embedded newlines: its lines joined
    by ["\n"]. *)
Definition nl : string := String (Ascii.ascii_of_nat 10) EmptyString.
Fixpoint lines (l : list string) : string :=
  match l with
  | [] => EmptyString
  | [x] => x
  | x :: r => x +:+ nl +:+ lines r
  end.

(** [enumerate(l)]. *)
Definition enumerate {A} (l : list A) : list (nat * A) := zip (seq 0 (length l)) l.

Definition qnat (n : nat) : Q := inject_Z (Z.of_nat n).

(** [for x in group:] iterates over the group's sub-objects. *)
Definition submobjects (g : nat) : SM (list nat) := st_gets (fun s => children (sc_store s) g).

(** [isinstance(obj, VGroup)]. *)
Definition is_vgroup (s : scene) (i : nat) : bool :=
  match m_shape <$> sc_store s !! i with Some SGroup => true | _ => false end.

(** [getattr(obj, 'font_size', None)]: only texts have a font size. *)
Definition font_size_of (s : scene) (i : nat) : option Q :=
  match m_shape <$> sc_store s !! i with Some (SText t) => Some (t_font_size t) | _ => None end.

(** [obj.get_center()] as a pure query. *)
Definition center_of (s : scene) (i : nat) : vec := center (bbox_of s i).

(** ** What [Mobject.add] does to a group *)

Lemma foldl_dedup (acc l : list nat) :
  let r := foldl (fun acc x => if mem_b x acc then acc else acc ++ [x]) acc l in
  (forall x, x ∈ r <-> x ∈ acc \/ x ∈ l) /\ (NoDup acc -> NoDup r).
Proof.
  revert acc. induction l as [|y l IH]; intros acc; simpl.
  - split; [set_solver | done].
  - destruct (IH (if mem_b y acc then acc else acc ++ [y])) as [Hin Hnd].
    destruct (mem_b y acc) eqn:E.
    + apply mem_b_true in E. split; [intros x; rewrite Hin; set_solver | done].
    + split; [intros x; rewrite Hin, elem_of_app; set_solver|].
      intros Hacc. apply Hnd, NoDup_app. split_and!; [done| |apply NoDup_singleton].
      intros x Hx ->%list_elem_of_singleton. apply Is_true_false in E. apply E.
      by apply bool_decide_pack.
Qed.

Lemma remove_list_redundancies_spec l :
  (forall x, x ∈ remove_list_redundancies l <-> x ∈ l) /\ NoDup (remove_list_redundancies l).
Proof.
  unfold remove_list_redundancies. destruct (foldl_dedup [] (reverse l)) as [Hin Hnd].
  split.
  - intros x. rewrite elem_of_reverse, Hin, elem_of_reverse. set_solver.
  - rewrite reverse_Permutation. apply Hnd, NoDup_nil_2.
Qed.

(** [Mobject.add(mobjects...)] on a group without duplicate sub-objects:
    adding the group to itself raises [ValueError] and changes nothing;
    otherwise the group afterwards holds its old sub-objects and the new
    ones, each once. *)
Theorem vg_add_spec g l s m :
  sc_store s !! g = Some m -> NoDup (m_subs m) ->
  (g ∈ l -> vg_add g l s = (Err ValueError, s)) /\
  (g ∉ l ->
   st_eval (vg_add g l) s = Ok tt /\
   NoDup (children (sc_store (st_exec (vg_add g l) s)) g) /\
   forall x, x ∈ children (sc_store (st_exec (vg_add g l) s)) g <-> x ∈ m_subs m \/ x ∈ l).
Proof.
  intros Hg Hnd. unfold vg_add, st_eval, st_exec. split.
  - intros Hin. by rewrite (proj2 (mem_b_true g l) Hin).
  - intros Hnin. destruct (mem_b g l) eqn:E; [by apply mem_b_true in E|].
    rewrite Hg. simpl. unfold children. rewrite lookup_insert_eq. simpl.
    destruct (remove_list_redundancies_spec l) as [Hrin Hrnd].
    split_and!; [done| |].
    + unfold list_update. apply NoDup_app. split_and!; [by apply NoDup_filter| |done].
      intros x Hx%list_elem_of_filter. naive_solver.
    + intros x. unfold list_update. rewrite elem_of_app, list_elem_of_filter, Hrin.
      destruct (decide (x ∈ l)); naive_solver.
Qed.
