(* ===== verification/Scene.v ===== *)
(** * Scene: manim's scene operations

    The part of manim's [Scene] (Cairo renderer) the source calls:
    [add], [remove], [clear], [wait] and [play].  [Scene.mobjects] holds
    the top-level objects in drawing order.  Adding an object first
    removes its whole family from the list, then appends it; removing an
    object that sits inside a top-level group splits that group into its
    remaining members ([Scene.get_restructured_mobject_list], modelled by
    [add_safe]).  [play] adds the objects of non-introducer animations
    that are not yet drawn, lets introducers ([FadeIn], [Write],
    [GrowFromCenter], [GrowArrow]) add theirs, advances the clock by the
    longest run time, applies each animation's final frame and lets
    removers ([FadeOut]) remove their object.

    The scene invariant [scene_ok]: the store is a forest (the
    sub-objects of a group have disjoint families) and the top-level
    objects have pairwise disjoint families (in particular no duplicate
    and no object drawn both alone and inside a drawn group).  Every
    operation preserves it ([add_ok], [remove_ok], [play_ok], ...). *)

From S2P Require Import Prelude Geometry Mobject.

Local Open Scope Q_scope.
Local Open Scope sm_scope.

(** ** Restructuring the list of drawn objects *)

(** [add_safe_mobjects_from_list]: keep an object when its family misses
    the set to remove, drop it when it is in the set, and otherwise
    replace it by its sub-objects, examined against the part of the set in
    its family.  The recursion follows the depth of the family tree; the
    fuel bound of [restructure] exceeds that depth. *)
Fixpoint add_safe (st : gmap nat mob) (fuel : nat) (l : list nat) (rm : gset nat)
  : list nat :=
  match fuel with
  | O => []
  | S f =>
      flat_map (fun m =>
        if bool_decide (m ∈ rm) then []
        else if bool_decide (rm ∩ family st m = ∅) then [m]
        else add_safe st f (children st m) (rm ∩ family st m)) l
  end.

Definition restructure (st : gmap nat mob) (l : list nat) (rm : gset nat) : list nat :=
  add_safe st (S (size (all_children st))) l rm.

(** The objects drawn: the families of the top-level objects
    ([get_mobject_family_members]). *)
Definition family_members (s : scene) : gset nat :=
  ⋃ (family (sc_store s) <$> sc_mobjects s).

(** [Scene.add(mobjects...)]. *)
Definition add (ms : list nat) : SM unit :=
  st_modify (fun s =>
    let rm := ⋃ (family (sc_store s) <$> ms) in
    set_mobjects (restructure (sc_store s) (sc_mobjects s) rm ++ ms) s).

(** [Scene.remove(mobjects...)]: the families are not extracted. *)
Definition remove (ms : list nat) : SM unit :=
  st_modify (fun s =>
    set_mobjects (restructure (sc_store s) (sc_mobjects s) (list_to_set ms)) s).

(** [Scene.clear()]. *)
Definition clear : SM unit := st_modify (set_mobjects []).

Definition advance (t : Q) (s : scene) : scene :=
  Scene (sc_store s) (sc_next s) (sc_mobjects s) (Qred (sc_time s + t)) (sc_background s).

(** [Scene.wait(duration)]. *)
Definition wait (t : Q) : SM unit := st_modify (advance t).

(** [self.camera.background_color = c]. *)
Definition set_background (c : string) : SM unit :=
  st_modify (fun s => Scene (sc_store s) (sc_next s) (sc_mobjects s) (sc_time s) c).

(** ** Animations *)

(** The animations the source builds.  [Rotate] carries its angle in full
    turns ([angle=2*PI] is one turn) and its own [run_time];
    [SetStrokeAnim m c w o] is [m.animate.set_stroke(c, width=w, opacity=o)]. *)
Inductive anim :=
| FadeIn (m : nat)
| FadeOut (m : nat)
| Write (m : nat)
| GrowFromCenter (m : nat)
| GrowArrow (m : nat)
| MoveAlongPath (m path : nat)
| Rotate (m : nat) (turns : Z) (run_time : option Q)
| Transform (m target : nat)
| SetStrokeAnim (m : nat) (c : option string) (w o : option Q).

Definition anim_mobject (a : anim) : nat :=
  match a with
  | FadeIn m | FadeOut m | Write m | GrowFromCenter m | GrowArrow m
  | MoveAlongPath m _ | Rotate m _ _ | Transform m _ | SetStrokeAnim m _ _ _ => m
  end.

Definition is_introducer (a : anim) : bool :=
  match a with
  | FadeIn _ | Write _ | GrowFromCenter _ | GrowArrow _ => true
  | _ => false
  end.

Definition is_remover (a : anim) : bool :=
  match a with FadeOut _ => true | _ => false end.

(** [DEFAULT_ANIMATION_RUN_TIME = 1]; a [run_time] given to [play]
    overrides every animation's own. *)
Definition anim_run_time (rt : option Q) (a : anim) : Q :=
  match rt, a with
  | Some r, _ => r
  | None, Rotate _ _ (Some r) => r
  | None, _ => 1
  end.

Definition play_duration (rt : option Q) (anims : list anim) : Q :=
  foldr (fun a acc => Qmax (anim_run_time rt a) acc) 0 anims.

(** [add_mobjects_from_animations]: [curr] is the set of family members
    computed once before the loop and extended by each added family. *)
Fixpoint add_from_anims (curr : gset nat) (anims : list anim) : SM unit :=
  match anims with
  | [] => st_ret tt
  | a :: r =>
      let m := anim_mobject a in
      if is_introducer a || bool_decide (m ∈ curr) then add_from_anims curr r
      else add [m] ;;
           fam <- st_gets (fun s => family (sc_store s) m) ;;
           add_from_anims (curr ∪ fam) r
  end.

(** [Animation._setup_scene]: an introducer adds its object unless it is
    already drawn. *)
Definition setup_scene (a : anim) : SM unit :=
  drawn <- st_gets family_members ;;
  if is_introducer a && negb (bool_decide (anim_mobject a ∈ drawn))
  then add [anim_mobject a] else st_ret tt.

(** The state an animation leaves ([interpolate(1)]): a path animation
    moves its object to the end of the path, a transform makes its object
    take the target's shape, [.animate.set_stroke] restyles; fades, writes,
    growths and whole-turn rotations leave the object as it was. *)
Definition anim_finish (a : anim) : SM unit :=
  match a with
  | MoveAlongPath m p => e <- get_end p ;; move_to m e
  | Transform m t => become m t
  | SetStrokeAnim m c w o => set_stroke m c w o
  | _ => st_ret tt
  end.

(** [clean_up_from_scene]: a remover removes its object. *)
Definition clean_up (a : anim) : SM unit :=
  if is_remover a then remove [anim_mobject a] else st_ret tt.

(** [Scene.play(animations..., run_time=rt)]; with no animation manim raises
    [ValueError]. *)
Definition play (anims : list anim) (rt : option Q) : SM unit :=
  match anims with
  | [] => st_raise ValueError
  | _ =>
      curr <- st_gets family_members ;;
      add_from_anims curr anims ;;
      st_for anims setup_scene ;;
      st_modify (advance (play_duration rt anims)) ;;
      st_for anims (fun a => anim_finish a ;; clean_up a)
  end.

(** ** The scene invariant *)

(** Pairwise disjoint families along a list. *)
Fixpoint disjoint_fams (st : gmap nat mob) (l : list nat) : Prop :=
  match l with
  | [] => True
  | x :: r => Forall (fun y => family st x ## family st y) r /\ disjoint_fams st r
  end.

(** The sub-objects of every group have disjoint families. *)
Definition store_forest (st : gmap nat mob) : Prop :=
  forall g, disjoint_fams st (children st g).

(** Identities at or above [sc_next] are unused. *)
Definition store_fresh (s : scene) : Prop :=
  forall j, (sc_next s <= j)%nat -> sc_store s !! j = None.

Definition scene_ok (s : scene) : Prop :=
  store_forest (sc_store s) /\ store_fresh s /\ disjoint_fams (sc_store s) (sc_mobjects s).

Lemma disjoint_fams_app st l1 l2 :
  disjoint_fams st (l1 ++ l2) <->
  disjoint_fams st l1 /\ disjoint_fams st l2 /\
  (forall x y, x ∈ l1 -> y ∈ l2 -> family st x ## family st y).
Proof.
  induction l1 as [|x l1 IH]; simpl.
  - split; [intros H; split_and!; [done|done|set_solver] | naive_solver].
  - rewrite IH, Forall_app. split.
    + intros [[H1 H2] (H3 & H4 & H5)]. split_and!; [done|done|done|].
      rewrite Forall_forall in H2.
      intros a b [->|Ha]%elem_of_cons Hb; [by apply H2|by apply H5].
    + intros [[H1 H3] (H4 & H5)]. split_and!; [done| |done|done|].
      * apply Forall_forall. intros b Hb. apply H5; [left|done].
      * intros a b Ha Hb. apply H5; [by right|done].
Qed.

(** Disjointness depends on the families only. *)
Lemma disjoint_fams_ext st1 st2 l :
  (forall j, children st1 j = children st2 j) ->
  disjoint_fams st1 l <-> disjoint_fams st2 l.
Proof.
  intros Hch. induction l as [|x l IH]; simpl; [done|].
  rewrite IH, !Forall_forall. by setoid_rewrite (family_ext st1 st2 _ Hch).
Qed.

Section Restructure.
Context (st : gmap nat mob) (Hforest : store_forest st).

(** What [add_safe] returns: objects with pairwise disjoint families,
    each inside the family of an object of the input, and none of them
    sharing a family member with the set to remove. *)
Lemma add_safe_spec n l rm :
  disjoint_fams st l ->
  let r := add_safe st n l rm in
  disjoint_fams st r /\
  forall x, x ∈ r -> (exists y, y ∈ l /\ x ∈ family st y) /\ family st x ## rm.
Proof.
  revert l rm. induction n as [|n IHn]; intros l rm Hl; simpl; [split; [done|set_solver]|].
  induction l as [|m l IHl]; simpl; [split; [done|set_solver]|].
  destruct Hl as [Hm Hl]. rewrite Forall_forall in Hm.
  destruct (IHl Hl) as [Hd Hin].
  assert (Hhead : let r := (if bool_decide (m ∈ rm) then []
            else if bool_decide (rm ∩ family st m = ∅) then [m]
            else add_safe st n (children st m) (rm ∩ family st m)) in
            disjoint_fams st r /\ forall x, x ∈ r -> x ∈ family st m /\ family st x ## rm).
  { case_bool_decide; [simpl; split; [done|set_solver]|].
    case_bool_decide as Hempty.
    - simpl. split; [split; [constructor|done]|].
      intros x ->%list_elem_of_singleton. split; [apply family_self|set_solver].
    - destruct (IHn (children st m) (rm ∩ family st m) (Hforest m)) as [Hd' Hin'].
      split; [done|]. intros x Hx. destruct (Hin' x Hx) as [(c & Hc & Hxc) Hdisj].
      assert (family st x ⊆ family st m) as Hsub.
      { etrans; [by apply family_trans|]. by apply family_child. }
      split; [apply Hsub, family_self|set_solver]. }
  destruct Hhead as [Hd0 Hin0]. split.
  - apply disjoint_fams_app. split_and!; [done|done|].
    intros x y Hx Hy. destruct (Hin0 x Hx) as [Hxm _]. destruct (Hin y Hy) as [(y' & Hy' & Hyy') _].
    pose proof (family_trans st _ _ Hxm). pose proof (family_trans st _ _ Hyy').
    pose proof (Hm y' Hy'). set_solver.
  - intros x [Hx | Hx]%elem_of_app.
    + destruct (Hin0 x Hx). split; [|done]. exists m. split; [left|done].
    + destruct (Hin x Hx) as [(y & Hy & Hxy) Hd1]. split; [|done]. exists y. split; [by right|done].
Qed.

Lemma restructure_spec l rm :
  disjoint_fams st l ->
  disjoint_fams st (restructure st l rm) /\
  forall x, x ∈ restructure st l rm ->
            (exists y, y ∈ l /\ x ∈ family st y) /\ family st x ## rm.
Proof. apply add_safe_spec. Qed.
End Restructure.

Lemma add_safe_cons st n m l rm :
  add_safe st (S n) (m :: l) rm = add_safe st (S n) [m] rm ++ add_safe st (S n) l rm.
Proof. simpl. by rewrite app_nil_r. Qed.

(** When every top-level object is either to be removed or unrelated to
    the removed set, nothing is split: the result is a filter.  This is
    the case of the source's heuristic clean-ups, which remove top-level
    objects only. *)
Lemma restructure_filter st l rm :
  (forall x, x ∈ l -> x ∈ rm \/ rm ∩ family st x = ∅) ->
  restructure st l rm = filter (fun x => x ∉ rm) l.
Proof.
  unfold restructure. generalize (size (all_children st)) as n. intros n H.
  induction l as [|m l IH]; [done|].
  rewrite add_safe_cons, filter_cons, IH by (intros; apply H; by right).
  simpl. destruct (H m ltac:(left)) as [Hm | Hm].
  - rewrite (bool_decide_true (m ∈ rm)) by done.
    rewrite decide_False by (intros Hn; by apply Hn). done.
  - case_bool_decide as Hin.
    + rewrite decide_False by (intros Hn; by apply Hn). done.
    + rewrite (bool_decide_true (_ = ∅)) by done. by rewrite decide_True.
Qed.

(** Two different objects of a list with disjoint families have disjoint
    families. *)
Lemma disjoint_fams_pair st l x y :
  disjoint_fams st l -> x ∈ l -> y ∈ l -> x <> y -> family st x ## family st y.
Proof.
  induction l as [|z l IH]; simpl; [set_solver|].
  intros [Hz Hl] Hx Hy Hxy. rewrite Forall_forall in Hz.
  apply elem_of_cons in Hx as [-> | Hx]; apply elem_of_cons in Hy as [-> | Hy].
  - done.
  - by apply Hz.
  - symmetry. by apply Hz.
  - by apply IH.
Qed.

(** The source's clean-ups remove top-level objects only: on a scene whose
    drawn objects have disjoint families, removing some of them removes
    exactly those. *)
Lemma remove_top_level s objs :
  disjoint_fams (sc_store s) (sc_mobjects s) -> (forall x, x ∈ objs -> x ∈ sc_mobjects s) ->
  sc_mobjects (st_exec (remove objs) s) = filter (fun x => x ∉ objs) (sc_mobjects s).
Proof.
  intros Hd Hin. simpl. rewrite restructure_filter.
  - apply list_filter_iff. intros x. by rewrite elem_of_list_to_set.
  - intros x Hx. destruct (decide (x ∈ objs)) as [H|H]; [left; set_solver|right].
    apply set_eq. intros y. rewrite elem_of_intersection, elem_of_list_to_set. split; [|set_solver].
    intros [Hy Hyx]. destruct (decide (x = y)) as [->|Hne]; [done|].
    destruct (disjoint_fams_pair _ _ x y Hd Hx (Hin y Hy) Hne y); [done|apply family_self].
Qed.

(** ** Preservation of the invariant *)

(** A store update that keeps every sub-object list and every unused
    identity keeps the invariant. *)
Lemma scene_ok_set_store s st' :
  (forall j, children st' j = children (sc_store s) j) ->
  (forall j, sc_store s !! j = None -> st' !! j = None) ->
  scene_ok s -> scene_ok (set_store st' s).
Proof.
  intros Hch Hnone (Hfo & Hfr & Hd). split_and!; simpl.
  - intros g. rewrite Hch. apply (disjoint_fams_ext _ _ _ Hch), Hfo.
  - intros j Hj. by apply Hnone, Hfr.
  - by apply (disjoint_fams_ext _ _ _ Hch).
Qed.

Lemma scene_ok_store_map s F f :
  (forall m, m_subs (f m) = m_subs m) ->
  scene_ok s -> scene_ok (set_store (store_map_on F f (sc_store s)) s).
Proof.
  intros Hf. apply scene_ok_set_store; [by apply store_map_on_children|].
  intros j Hj. rewrite store_map_on_lookup, Hj. by case_bool_decide.
Qed.

Lemma scene_ok_set_mobjects s l :
  scene_ok s -> disjoint_fams (sc_store s) l -> scene_ok (set_mobjects l s).
Proof. by intros (? & ? & _) ?. Qed.

Lemma add_ok ms s :
  scene_ok s -> disjoint_fams (sc_store s) ms -> scene_ok (st_exec (add ms) s).
Proof.
  intros Hs Hms. apply scene_ok_set_mobjects; [done|].
  destruct Hs as (Hfo & _ & Hd).
  destruct (restructure_spec _ Hfo (sc_mobjects s)
              (⋃ (family (sc_store s) <$> ms)) Hd) as [Hr Hin].
  apply disjoint_fams_app. split_and!; [done|done|].
  intros x y Hx Hy. destruct (Hin x Hx) as [_ Hdisj].
  assert (family (sc_store s) y ⊆ ⋃ (family (sc_store s) <$> ms)).
  { intros z Hz. apply elem_of_union_list. exists (family (sc_store s) y).
    split; [by apply list_elem_of_fmap_2|done]. }
  set_solver.
Qed.

Lemma add_single_ok m : st_preserves scene_ok (add [m]).
Proof. intros s Hs. apply add_ok; [done|]. split; [constructor|done]. Qed.

Lemma remove_ok ms : st_preserves scene_ok (remove ms).
Proof.
  intros s Hs. apply scene_ok_set_mobjects; [done|].
  destruct Hs as (Hfo & _ & Hd). by apply restructure_spec.
Qed.

Lemma clear_ok : st_preserves scene_ok clear.
Proof. intros s Hs. by apply scene_ok_set_mobjects. Qed.

Lemma wait_ok t : st_preserves scene_ok (wait t).
Proof. by intros s (? & ? & ?). Qed.

Lemma advance_ok t : st_preserves scene_ok (@st_modify scene exn (advance t)).
Proof. by intros s (? & ? & ?). Qed.

Lemma set_background_ok c : st_preserves scene_ok (set_background c).
Proof. by intros s (? & ? & ?). Qed.

(** Creating an object with no sub-objects (every constructor the source
    calls, before [VGroup.add]) keeps the invariant. *)
Lemma new_mob_ok m : m_subs m = [] -> st_preserves scene_ok (new_mob m).
Proof.
  intros Hm s (Hfo & Hfr & Hd).
  assert (Hch : forall j, children (<[sc_next s := m]> (sc_store s)) j = children (sc_store s) j).
  { intros j. unfold children. destruct (decide (j = sc_next s)) as [->|Hne].
    - rewrite lookup_insert_eq, (Hfr (sc_next s)) by lia. simpl. by rewrite Hm.
    - by rewrite lookup_insert_ne by congruence. }
  unfold st_exec, new_mob in *. cbn [snd sc_store sc_next sc_mobjects] in *. split_and!.
  - intros g. rewrite Hch. apply (disjoint_fams_ext _ _ _ Hch), Hfo.
  - intros j Hj. cbn [sc_store sc_next] in *. rewrite lookup_insert_ne by lia. apply Hfr. lia.
  - by apply (disjoint_fams_ext _ _ _ Hch).
Qed.

Lemma shift_ok i v : st_preserves scene_ok (shift i v).
Proof. intros s Hs. apply scene_ok_store_map; [done|exact Hs]. Qed.

Lemma set_stroke_ok i c w o : st_preserves scene_ok (set_stroke i c w o).
Proof. intros s Hs. apply scene_ok_store_map; [done|exact Hs]. Qed.

Lemma become_ok i j : st_preserves scene_ok (become i j).
Proof.
  intros s Hs. unfold become, st_exec, st_modify. cbn [snd].
  destruct (sc_store s !! i) as [mi|] eqn:Ei; [|done].
  destruct (sc_store s !! j) as [mj|]; [|done].
  apply scene_ok_set_store; [|intros k Hk; rewrite lookup_insert_ne; congruence|done].
  intros k. unfold children. destruct (decide (k = i)) as [->|Hne].
  - by rewrite lookup_insert_eq, Ei.
  - by rewrite lookup_insert_ne by congruence.
Qed.

#[export] Hint Resolve add_single_ok remove_ok clear_ok wait_ok advance_ok set_background_ok
  shift_ok set_stroke_ok become_ok : sm_db.

Lemma move_to_ok i p : st_preserves scene_ok (move_to i p).
Proof. unfold move_to. preserves_auto. Qed.

Lemma to_edge_ok i d b : st_preserves scene_ok (to_edge i d b).
Proof. unfold to_edge. preserves_auto. Qed.

Lemma next_to_ok i j d b : st_preserves scene_ok (next_to i j d b).
Proof. unfold next_to. preserves_auto. Qed.

#[export] Hint Resolve move_to_ok to_edge_ok next_to_ok : sm_db.

Lemma add_from_anims_ok curr anims : st_preserves scene_ok (add_from_anims curr anims).
Proof.
  revert curr. induction anims as [|a r IH]; intros curr; simpl; [preserves_auto|].
  destruct (_ || _); [apply IH|]. preserves_auto.
Qed.

Lemma setup_scene_ok a : st_preserves scene_ok (setup_scene a).
Proof. unfold setup_scene. preserves_auto. Qed.

Lemma finish_clean_ok a : st_preserves scene_ok (anim_finish a ;; clean_up a).
Proof.
  apply st_preserves_bind; [|intros _; unfold clean_up; preserves_auto].
  destruct a; simpl; unfold get_end; preserves_auto.
Qed.

#[export] Hint Resolve add_from_anims_ok setup_scene_ok finish_clean_ok : sm_db.

(** [Scene.play] keeps the scene invariant [scene_ok], whatever the
    animations and the run time. *)
Theorem play_ok anims rt : st_preserves scene_ok (play anims rt).
Proof. unfold play. destruct anims; preserves_auto. Qed.

(** ** What raises, and the clock

    Only [play] of no animation raises among the scene operations; every
    other step returns, and only [wait] and [play] move the clock. *)

Notation keeps_time := (st_keeps sc_time).

(** Proves [st_keeps f m] from the lemmas of [ok_db]; a state update is
    checked by computation. *)
Ltac keeps_auto :=
  repeat first
    [ solve [eauto with ok_db]
    | apply st_keeps_bind; [| intros ?]
    | apply st_keeps_for; intros ?
    | apply st_keeps_modify; intros ?; simpl; repeat case_match; reflexivity
    | match goal with |- st_keeps _ (if ?b then _ else _) => destruct b end ].
Ltac time_auto := keeps_auto.

Lemma shift_total i v : st_ok (shift i v).
Proof. unfold shift. ok_auto. Qed.
Lemma shift_time i v : keeps_time (shift i v).
Proof. unfold shift. time_auto. Qed.
Lemma set_stroke_total i c w o : st_ok (set_stroke i c w o).
Proof. unfold set_stroke. ok_auto. Qed.
Lemma set_stroke_time i c w o : keeps_time (set_stroke i c w o).
Proof. unfold set_stroke. time_auto. Qed.
Lemma become_total i j : st_ok (become i j).
Proof. unfold become. ok_auto. Qed.
Lemma become_time i j : keeps_time (become i j).
Proof. unfold become. time_auto. Qed.
Lemma add_total ms : st_ok (add ms).
Proof. unfold add. ok_auto. Qed.
Lemma add_time ms : keeps_time (add ms).
Proof. unfold add. time_auto. Qed.
Lemma remove_total ms : st_ok (remove ms).
Proof. unfold remove. ok_auto. Qed.
Lemma remove_time ms : keeps_time (remove ms).
Proof. unfold remove. time_auto. Qed.

#[export] Hint Resolve shift_total shift_time set_stroke_total set_stroke_time become_total
  become_time add_total add_time remove_total remove_time : ok_db.

Lemma add_from_anims_step curr anims :
  st_ok (add_from_anims curr anims) /\ keeps_time (add_from_anims curr anims).
Proof.
  revert curr. induction anims as [|a anims IH]; intros curr; simpl; [split; auto with ok_db|].
  split; destruct (_ || _); try apply IH.
  - ok_auto. apply IH.
  - time_auto. apply IH.
Qed.

Lemma setup_scene_step a : st_ok (setup_scene a) /\ keeps_time (setup_scene a).
Proof. unfold setup_scene. split; [ok_auto | time_auto]. Qed.

Lemma finish_clean_step a :
  st_ok (anim_finish a ;; clean_up a) /\ keeps_time (anim_finish a ;; clean_up a).
Proof.
  unfold clean_up, get_end, move_to.
  split; [destruct a; simpl; ok_auto | destruct a; simpl; time_auto].
Qed.

(** [Scene.play] raises exactly when it is given no animation; otherwise it
    returns and the clock advances by the longest run time (the [run_time]
    argument when given). *)
Theorem play_clock anims rt s :
  anims <> [] ->
  st_eval (play anims rt) s = Ok tt /\
  sc_time (st_exec (play anims rt) s) = Qred (sc_time s + play_duration rt anims).
Proof.
  intros Hne. destruct anims as [|a anims]; [done|]. unfold play.
  set (l := a :: anims). set (curr := family_members s).
  destruct (proj1 (add_from_anims_step curr l) s) as [[] H1].
  pose proof (proj2 (add_from_anims_step curr l) (sc_time s) s eq_refl) as T1.
  set (s1 := st_exec (add_from_anims curr l) s) in T1.
  destruct (st_ok_for l setup_scene (fun x _ => proj1 (setup_scene_step x)) s1) as [[] H2].
  pose proof (st_keeps_for sc_time l setup_scene (fun x => proj2 (setup_scene_step x)) _ s1 T1) as T2.
  set (s2 := st_exec (st_for l setup_scene) s1) in T2.
  set (fin := fun a => anim_finish a ;; clean_up a).
  set (s3 := advance (play_duration rt l) s2).
  destruct (st_ok_for l fin (fun x _ => proj1 (finish_clean_step x)) s3) as [[] H3].
  pose proof (st_keeps_for sc_time l fin (fun x => proj2 (finish_clean_step x))
                (sc_time s3) s3 eq_refl) as T3.
  rewrite (st_eval_bind_ok _ _ s (family_members s)), (st_exec_bind_ok _ _ s (family_members s))
    by reflexivity.
  rewrite (st_eval_bind_ok _ _ _ tt H1), (st_exec_bind_ok _ _ _ tt H1).
  rewrite (st_eval_bind_ok _ _ _ tt H2), (st_exec_bind_ok _ _ _ tt H2).
  rewrite (st_eval_bind_ok _ _ _ tt) by reflexivity.
  rewrite (st_exec_bind_ok _ _ _ tt) by reflexivity.
  change (st_exec (@st_modify scene exn (advance (play_duration rt l))) s2) with s3.
  split; [exact H3|]. transitivity (sc_time s3); [exact T3|]. unfold s3. simpl. by rewrite T2.
Qed.

(** [Scene.play()] with no animation raises [ValueError] and changes nothing. *)
Lemma play_empty rt s : play [] rt s = (Err ValueError, s).
Proof. reflexivity. Qed.

(** ** Deciding the invariant

    [store_forest] and [store_fresh] quantify over all identities; only
    the identities of the store matter, so both are decidable. *)

#[global] Instance disjoint_fams_dec st l : Decision (disjoint_fams st l).
Proof. induction l; simpl; apply _. Defined.

Lemma store_forest_map_Forall st :
  store_forest st <-> map_Forall (fun g _ => disjoint_fams st (children st g)) st.
Proof.
  split; [intros H g ? _; apply H|].
  intros H g. destruct (st !! g) eqn:E; [by eapply H|].
  unfold children. rewrite E. done.
Qed.

Lemma store_fresh_map_Forall s :
  store_fresh s <-> map_Forall (fun j _ => (j < sc_next s)%nat) (sc_store s).
Proof.
  split.
  - intros H j m Hj. destruct (decide (j < sc_next s)%nat); [done|].
    rewrite H in Hj by lia. done.
  - intros H j Hj. destruct (sc_store s !! j) eqn:E; [|done].
    apply H in E. lia.
Qed.

#[global] Instance scene_ok_dec s : Decision (scene_ok s).
Proof.
  unfold scene_ok.
  destruct (decide (map_Forall (fun g _ => disjoint_fams (sc_store s) (children (sc_store s) g))
                      (sc_store s))) as [H1|H1];
    [|right; rewrite store_forest_map_Forall; tauto].
  destruct (decide (map_Forall (fun j _ => (j < sc_next s)%nat) (sc_store s))) as [H2|H2];
    [|right; rewrite store_fresh_map_Forall; tauto].
  destruct (decide (disjoint_fams (sc_store s) (sc_mobjects s))) as [H3|H3]; [|right; tauto].
  left. rewrite store_forest_map_Forall, store_fresh_map_Forall. done.
Defined.

(** ** What [remove] does *)

(** An object drawn whose family misses the removed set stays drawn. *)
Lemma restructure_keeps st l rm x :
  x ∈ l -> rm ∩ family st x = ∅ -> x ∈ restructure st l rm.
Proof.
  intros Hx Hrm. unfold restructure. simpl. apply elem_of_flat_map. exists x. split; [done|].
  pose proof (family_self st x).
  rewrite bool_decide_false by set_solver. rewrite bool_decide_true by done. by left.
Qed.

(** [Scene.remove(ms...)] on a well-formed scene: no removed object is drawn
    any more, not even inside a drawn group, and every drawn object whose
    family contains none of them stays drawn. *)
Theorem remove_spec ms s :
  scene_ok s ->
  (forall m, m ∈ ms -> m ∉ family_members (st_exec (remove ms) s)) /\
  (forall x, x ∈ sc_mobjects s -> family (sc_store s) x ## list_to_set ms ->
             x ∈ sc_mobjects (st_exec (remove ms) s)).
Proof.
  intros (Hfo & _ & Hd). unfold family_members. simpl. split.
  - intros m Hm Hin. apply elem_of_union_list in Hin as (X & HX & HmX).
    apply list_elem_of_fmap in HX as (x & -> & Hx).
    destruct (restructure_spec _ Hfo _ (list_to_set ms) Hd) as [_ Hr].
    destruct (Hr x Hx) as [_ Hdis]. apply (Hdis m); [done|]. set_solver.
  - intros x Hx Hdis. apply restructure_keeps; [done|]. set_solver.
Qed.

(** [Scene.add(ms...)] on a well-formed scene, the added objects having
    pairwise disjoint families: the scene stays well formed, every added
    object is drawn, and every drawn object whose family misses the
    families of the added ones stays drawn. *)
Theorem add_spec ms s :
  scene_ok s -> disjoint_fams (sc_store s) ms ->
  scene_ok (st_exec (add ms) s) /\
  (forall m, m ∈ ms -> m ∈ sc_mobjects (st_exec (add ms) s)) /\
  (forall x, x ∈ sc_mobjects s -> family (sc_store s) x ## ⋃ (family (sc_store s) <$> ms) ->
             x ∈ sc_mobjects (st_exec (add ms) s)).
Proof.
  intros Hs Hms. split_and!; [by apply add_ok| |]; simpl; intros x Hx.
  - apply elem_of_app. by right.
  - intros Hdis. apply elem_of_app. left. apply restructure_keeps; [done|]. set_solver.
Qed.
