(* ===== verification/SetupStages.v ===== *)
(** * The first stages of [MUL8086Animation]

    One definition per method of [src/manim_8086_mul.py], in the order of
    the file: [intro_scene_extended] (lines 60-97),
    [cpu_architecture_overview] (99-161), [setup_registers] (163-217, not
    called by [construct]), [setup_registers_detailed] (219-297),
    [setup_memory_and_pc] (299-337), [instruction_fetch] (339-396),
    [decode_instruction] (398-447) and the "detailed" wrappers of lines
    801-822, whose heuristic clean-ups filter [self.mobjects] before
    delegating.  Every statement of a method is one step of the monadic
    definition, in the same order; a method's Python return value is the
    definition's result.  The text metrics [M] are a section variable. *)

From S2P Require Import Prelude Geometry Mobject Scene.

Local Open Scope Q_scope.
Local Open Scope vec_scope.
Local Open Scope sm_scope.

(** The colour [WHITE] of manim. *)
Definition WHITE : string := "#FFFFFF".

(** The register values of the plain stages, and the instruction as the
    memory cell, IR and the decoder show it. *)
Definition plain_ax_value_string : string := "0x9000".
Definition plain_bx_value_string : string := "0x0003".
Definition memory_instr_string : string := lines ["F7 E3"; "(MUL BX)"].
Definition ir_value_string : string := "F7 E3".
Definition opcode_bits_string : string := lines ["F7 = 11110111"; "4 = 100 (reg)"].

Section SetupStages.
Context (M : metrics).

Definition intro_scene_extended : SM unit :=
  title <- Text M (txt "8086 MUL Instruction" 80) "#00bfff" ;;
  subtitle <- Text M (txt "Execution Cycle Animation" 52) "#80c0ff" ;;
  next_to subtitle title DOWN (7#10) ;;
  title_glow1 <- copy title ;;
  set_stroke title_glow1 (Some "#00bfff") (Some 12) (Some (2#10)) ;;
  title_glow2 <- copy title ;;
  set_stroke title_glow2 (Some "#00bfff") (Some 6) (Some (4#10)) ;;
  play [FadeIn title_glow1; FadeIn title_glow2; Write title] (Some 3) ;;
  play [FadeIn subtitle] (Some 2) ;;
  wait 2 ;;
  processor_info <- Text M (TS (lines ["Intel 8086 Microprocessor"; "16-bit Architecture";
                                      "Clock Speed: 5-10 MHz"]) 24 (3#2) false) "#80c0ff" ;;
  to_edge processor_info DOWN (3#2) ;;
  play [FadeIn processor_info] (Some 2) ;;
  wait 2 ;;
  play [FadeOut title; FadeOut title_glow1; FadeOut title_glow2; FadeOut subtitle;
        FadeOut processor_info] (Some 2).

Definition architecture_components : list string :=
  ["Execution Unit (EU)"; "Bus Interface Unit (BIU)"; "Arithmetic Logic Unit (ALU)";
   "Control Unit (CU)"; "Registers (AX, BX, CX, DX)"; "Instruction Queue (6 bytes)"].

Definition pipeline_steps : list string :=
  ["1. Fetch"; "2. Decode"; "3. Execute"; "4. Memory Access"; "5. Write Back";
   "6. Update Flags"].

Definition cpu_architecture_overview : SM unit :=
  arch_title <- Text M (txt "8086 CPU Architecture" 48) "#00bfff" ;;
  to_edge arch_title UP (1#2) ;;
  play [FadeIn arch_title] (Some (3#2)) ;;
  component_group <- VGroup [] ;;
  st_for (enumerate architecture_components) (fun p =>
    let '(i, comp) := p in
    comp_text <- Text M (txt comp 20) "#80ff80" ;;
    move_to comp_text (LEFT *^ 3 +^ UP *^ (2 - qnat i * (7#10))) ;;
    vg_add component_group [comp_text]) ;;
  comps <- submobjects component_group ;;
  st_for comps (fun comp => play [FadeIn comp] (Some (8#10)) ;; wait (3#10)) ;;
  pipeline_title <- Text M (txt "Instruction Pipeline" 24) "#ffff00" ;;
  move_to pipeline_title (RIGHT *^ 3 +^ UP *^ 2) ;;
  pipeline_group <- VGroup [] ;;
  st_for (enumerate pipeline_steps) (fun p =>
    let '(i, step) := p in
    step_text <- Text M (txt step 18) "#ffff80" ;;
    move_to step_text (RIGHT *^ 3 +^ UP *^ ((12#10) - qnat i * (5#10))) ;;
    vg_add pipeline_group [step_text]) ;;
  play [FadeIn pipeline_title] (Some 1) ;;
  steps <- submobjects pipeline_group ;;
  st_for steps (fun step => play [FadeIn step] (Some (6#10)) ;; wait (2#10)) ;;
  wait 3 ;;
  play [FadeOut arch_title; FadeOut component_group; FadeOut pipeline_title;
        FadeOut pipeline_group] (Some 2).

(** Three registers, each a box with its label above and its value
    inside; not called by [construct]. *)
Definition setup_registers : SM (nat * nat * nat) :=
  ax_box <- Rectangle (22#10) (12#10) "#00bfff" (1#10) ;;
  bx_box <- Rectangle (22#10) (12#10) "#00bfff" (1#10) ;;
  dx_box <- Rectangle (22#10) (12#10) "#00bfff" (1#10) ;;
  ax_label <- Text M (txt "AX" 22) "#00bfff" ;;
  ax_value <- Text M (txt plain_ax_value_string 18) WHITE ;;
  bx_label <- Text M (txt "BX" 22) "#00bfff" ;;
  bx_value <- Text M (txt plain_bx_value_string 18) WHITE ;;
  dx_label <- Text M (txt "DX" 22) "#00bfff" ;;
  dx_value <- Text M (txt "0x0000" 18) WHITE ;;
  to_edge ax_box LEFT (3#2) ;; shift ax_box (UP *^ (5#2)) ;;
  next_to bx_box ax_box DOWN (8#10) ;;
  next_to dx_box bx_box DOWN (8#10) ;;
  next_to ax_label ax_box UP (15#100) ;;
  c <- get_center ax_box ;; move_to ax_value c ;;
  next_to bx_label bx_box UP (15#100) ;;
  c <- get_center bx_box ;; move_to bx_value c ;;
  next_to dx_label dx_box UP (15#100) ;;
  c <- get_center dx_box ;; move_to dx_value c ;;
  ax_reg <- VGroup [ax_box; ax_label; ax_value] ;;
  bx_reg <- VGroup [bx_box; bx_label; bx_value] ;;
  dx_reg <- VGroup [dx_box; dx_label; dx_value] ;;
  play [GrowFromCenter ax_reg; GrowFromCenter bx_reg; GrowFromCenter dx_reg] (Some 2) ;;
  desc <- Text M (txt "Initial Register Values" 30) "#80c0ff" ;;
  to_edge desc UP (8#10) ;;
  play [FadeIn desc] (Some 1) ;;
  wait (3#2) ;;
  play [FadeOut desc] (Some (1#2)) ;;
  st_ret (ax_reg, bx_reg, dx_reg).

(** Label at the top, value at the centre, description at the bottom
    of a register box (lines 254-264, three times). *)
Definition place_register_detailed (box label val d : nat) : SM unit :=
  t <- get_top box ;; move_to label (t +^ DOWN *^ (2#10)) ;;
  c <- get_center box ;; move_to val c ;;
  b <- get_bottom box ;; move_to d (b +^ UP *^ (15#100)).

Definition setup_registers_detailed : SM (nat * nat * nat) :=
  clear ;;
  stage_title <- Text M (txt "CPU Registers Setup" 42) "#00bfff" ;;
  to_edge stage_title UP (3#10) ;;
  play [FadeIn stage_title] (Some (3#2)) ;;
  ax_box <- Rectangle (5#2) (12#10) "#00bfff" (15#100) ;;
  bx_box <- Rectangle (5#2) (12#10) "#00bfff" (15#100) ;;
  dx_box <- Rectangle (5#2) (12#10) "#00bfff" (15#100) ;;
  ax_label <- Text M (TS "AX" 28 (-1) true) "#00bfff" ;;
  ax_value <- Text M (txt "0xFFFF" 24) WHITE ;;
  ax_desc <- Text M (txt "Accumulator" 14) "#80c0ff" ;;
  bx_label <- Text M (TS "BX" 28 (-1) true) "#00bfff" ;;
  bx_value <- Text M (txt "0xFFFF" 24) WHITE ;;
  bx_desc <- Text M (txt "Base Register" 14) "#80c0ff" ;;
  dx_label <- Text M (TS "DX" 28 (-1) true) "#00bfff" ;;
  dx_value <- Text M (txt "0x0000" 24) WHITE ;;
  dx_desc <- Text M (txt "Data Register" 14) "#80c0ff" ;;
  to_edge ax_box LEFT (1#2) ;; shift ax_box (UP *^ (5#2)) ;;
  next_to bx_box ax_box DOWN (12#10) ;;
  next_to dx_box bx_box DOWN (12#10) ;;
  place_register_detailed ax_box ax_label ax_value ax_desc ;;
  place_register_detailed bx_box bx_label bx_value bx_desc ;;
  place_register_detailed dx_box dx_label dx_value dx_desc ;;
  ax_reg <- VGroup [ax_box; ax_label; ax_value; ax_desc] ;;
  bx_reg <- VGroup [bx_box; bx_label; bx_value; bx_desc] ;;
  dx_reg <- VGroup [dx_box; dx_label; dx_value; dx_desc] ;;
  play [GrowFromCenter ax_reg] (Some (3#2)) ;; wait (1#2) ;;
  play [GrowFromCenter bx_reg] (Some (3#2)) ;; wait (1#2) ;;
  play [GrowFromCenter dx_reg] (Some (3#2)) ;;
  explanation <- Text M (TS (lines ["AX (Accumulator): Multiplicand = 65,535 decimal";
                                   "BX (Base): Multiplier = 65,535 decimal";
                                   "DX (Data): Will store high 16 bits of result"])
                            18 (13#10) false) "#80c0ff" ;;
  move_to explanation (RIGHT *^ (9#2) +^ UP *^ 1) ;;
  play [FadeIn explanation] (Some 2) ;;
  wait 3 ;;
  play [FadeOut stage_title; FadeOut explanation] (Some 1) ;;
  st_ret (ax_reg, bx_reg, dx_reg).

Definition setup_memory_and_pc : SM (nat * nat * nat) :=
  memory_box <- Rectangle 3 (3#2) "#00bfff" (1#10) ;;
  move_to memory_box (RIGHT *^ (9#2) +^ UP *^ 3) ;;
  memory_addr <- Text M (txt "1000h" 16) "#80c0ff" ;;
  next_to memory_addr memory_box UP (2#10) ;;
  memory_instr <- Text M (txt memory_instr_string 14) WHITE ;;
  c <- get_center memory_box ;; move_to memory_instr c ;;
  memory_cell <- VGroup [memory_box; memory_addr; memory_instr] ;;
  l <- get_left memory_box ;;
  pc_arrow_shape <- Arrow (l +^ LEFT *^ 2) (l +^ LEFT *^ (1#10)) "#ffff00" 4 ;;
  pc_label <- Text M (txt "PC" 18) "#ffff00" ;;
  next_to pc_label pc_arrow_shape LEFT (3#10) ;;
  pc_arrow <- VGroup [pc_arrow_shape; pc_label] ;;
  ir_box <- Rectangle (5#2) (12#10) "#00bfff" (1#10) ;;
  next_to ir_box memory_box DOWN (3#2) ;;
  ir_label <- Text M (txt "IR" 20) "#00bfff" ;;
  next_to ir_label ir_box UP (15#100) ;;
  ir_value <- Text M (txt ir_value_string 16) WHITE ;;
  c <- get_center ir_box ;; move_to ir_value c ;;
  ir_reg <- VGroup [ir_box; ir_label; ir_value] ;;
  st_ret (memory_cell, pc_arrow, ir_reg).

Definition instruction_fetch (memory_cell pc_arrow ir_reg : nat) : SM unit :=
  fetch_title <- Text M (txt "Instruction Fetch" 36) "#00bfff" ;;
  to_edge fetch_title UP (1#2) ;;
  play [FadeIn fetch_title] (Some 1) ;;
  pc_shape <- getitem pc_arrow 0 ;;
  play [GrowFromCenter memory_cell; GrowArrow pc_shape] (Some 2) ;;
  pc_lbl <- getitem pc_arrow 1 ;;
  play [FadeIn pc_lbl] (Some (1#2)) ;;
  mem_box <- getitem memory_cell 0 ;; ir_box <- getitem ir_reg 0 ;;
  b <- get_bottom mem_box ;; t <- get_top ir_box ;;
  data_path <- Arrow b t "#00bfff" 6 ;;
  play [GrowArrow data_path] (Some (3#2)) ;;
  play [GrowFromCenter ir_reg] (Some (3#2)) ;;
  flowing_dot <- Dot "#00bfff" ;;
  p <- get_start data_path ;; move_to flowing_dot p ;;
  add [flowing_dot] ;;
  play [MoveAlongPath flowing_dot data_path] (Some 2) ;;
  play [SetStrokeAnim ir_reg (Some "#00bfff") (Some 4) (Some (8#10))] (Some (1#2)) ;;
  play [SetStrokeAnim ir_reg (Some "#00bfff") (Some 1) (Some 1)] (Some (1#2)) ;;
  play [FadeOut fetch_title; FadeOut flowing_dot; FadeOut data_path] (Some 1).

Definition decode_signals : list string := ["MUL_OP"; "REG_READ"; "ALU_EN"].

Definition decode_instruction (ir_reg : nat) : SM nat :=
  decode_title <- Text M (txt "Instruction Decode" 32) "#ff0040" ;;
  to_edge decode_title UP (1#2) ;;
  play [FadeIn decode_title] (Some 1) ;;
  cu_box <- Rectangle (16#5) (8#5) "#ff0040" (1#10) ;;
  move_to cu_box (RIGHT *^ (5#2) +^ DOWN *^ (1#2)) ;;
  cu_label <- Text M (txt "Control Unit" 18) "#ff0040" ;;
  next_to cu_label cu_box UP (1#10) ;;
  control_unit <- VGroup [cu_box; cu_label] ;;
  play [GrowFromCenter control_unit] (Some (3#2)) ;;
  opcode_bits <- Text M (txt opcode_bits_string 12) "#ff0040" ;;
  c <- get_center cu_box ;; move_to opcode_bits c ;;
  play [Write opcode_bits] (Some 2) ;;
  signal_texts <- VGroup [] ;;
  st_for (enumerate decode_signals) (fun p =>
    let '(i, signal) := p in
    signal_text <- Text M (txt signal 10) "#ff0040" ;;
    r <- get_right cu_box ;;
    move_to signal_text (r +^ RIGHT *^ (12#10) +^ DOWN *^ (qnat i * (3#10) - (3#10))) ;;
    vg_add signal_texts [signal_text]) ;;
  sigs <- submobjects signal_texts ;;
  st_for sigs (fun signal_text =>
    play [FadeIn signal_text; SetStrokeAnim signal_text (Some "#ff0040") (Some 2) (Some (6#10))]
         (Some (6#10))) ;;
  wait 1 ;;
  play [FadeOut decode_title] (Some (1#2)) ;;
  VGroup [control_unit; opcode_bits; signal_texts].

(** [self.remove] of the objects [obj in self.mobjects] with [p(obj)]:
    the list is computed before the removal. *)
Definition remove_where (p : scene -> nat -> bool) : SM unit :=
  objs <- st_gets (fun s => filter (fun i => p s i = true) (sc_mobjects s)) ;;
  remove objs.

(** The same, guarded by [if objs:] as the source writes it. *)
Definition remove_where_nonempty (p : scene -> nat -> bool) : SM unit :=
  objs <- st_gets (fun s => filter (fun i => p s i = true) (sc_mobjects s)) ;;
  match objs with [] => st_ret tt | _ => remove objs end.

(** [not isinstance(obj, VGroup) or len(obj) < 3]. *)
Definition not_big_group (s : scene) (i : nat) : bool :=
  negb (is_vgroup s i) || bool_decide (length (children (sc_store s) i) < 3)%nat.

Definition setup_memory_and_pc_detailed : SM (nat * nat * nat) :=
  remove_where not_big_group ;;
  setup_memory_and_pc.

(** [obj.get_center()[0] > 2]. *)
Definition right_of_2 (s : scene) (i : nat) : bool := Qlt_bool 2 (vx (center_of s i)).

Definition instruction_fetch_detailed (memory_cell pc_arrow ir_reg : nat) : SM unit :=
  remove_where_nonempty right_of_2 ;;
  instruction_fetch memory_cell pc_arrow ir_reg.

(** [getattr(obj, 'font_size', 0) > 30]. *)
Definition font_gt_30 (s : scene) (i : nat) : bool :=
  match font_size_of s i with Some fs => Qlt_bool 30 fs | None => false end.

Definition decode_instruction_detailed (ir_reg : nat) : SM nat :=
  remove_where font_gt_30 ;;
  decode_instruction ir_reg.
End SetupStages.

(** C22: the clean-ups by predicate that open the detailed stages
    ([self.remove] of the list of the drawn objects [obj] with [p(obj)], with
    or without the [if objs:] guard) remove exactly the drawn objects that
    satisfy the predicate, and split no group, on a well-formed scene. *)
Theorem remove_where_filter p s :
  scene_ok s ->
  sc_mobjects (st_exec (remove_where p) s) = filter (fun i => p s i = false) (sc_mobjects s) /\
  sc_mobjects (st_exec (remove_where_nonempty p) s) = filter (fun i => p s i = false) (sc_mobjects s).
Proof.
  intros (_ & _ & Hd).
  assert (Hf : sc_mobjects (st_exec (remove (filter (fun i => p s i = true) (sc_mobjects s))) s) =
               filter (fun i => p s i = false) (sc_mobjects s)).
  { rewrite remove_top_level; [| done | intros x Hx; apply list_elem_of_filter in Hx; tauto].
    apply filter_ext_in. intros x Hx. rewrite list_elem_of_filter. destruct (p s x); naive_solver. }
  split; [exact Hf|]. unfold remove_where_nonempty, st_exec, st_bind, st_gets. simpl.
  destruct (filter _ (sc_mobjects s)) eqn:E; [|exact Hf].
  symmetry. apply filter_all. intros x Hx. destruct (p s x) eqn:Hp; [|done].
  exfalso. apply (filter_nil_not_elem_of _ _ x E Hp). exact Hx.
Qed.

