(* ===== verification/ExecStages.v ===== *)
(** * The execution stages of [MUL8086Animation]

    [setup_alu] (lines 449-465), [operand_fetch] (467-540),
    [execute_multiplication] (542-591, not called by [construct]),
    [write_back_results] (593-679), and the wrappers
    [setup_alu_detailed] (824-831), [operand_fetch_detailed] (833-840),
    [execute_multiplication_detailed] (842-914) and
    [write_back_results_detailed] (916-923) of [src/manim_8086_mul.py].
    The strings that display numbers are named constants, so that the
    arithmetic development can refer to them. *)

From S2P Require Import Prelude Geometry Mobject Scene SetupStages.

Local Open Scope Q_scope.
Local Open Scope vec_scope.
Local Open Scope sm_scope.

(** ** The values the stages display *)

Definition operand_text_string : string := lines ["AX: 0xFFFF"; "BX: 0xFFFF"].
Definition plain_calc_string : string := "0x9000 × 0x0003".
Definition plain_result_string : string := "= 0x1B200".
Definition plain_decimal_string : string := "(110592 decimal)".
Definition new_ax_value_string : string := "0x0001".
Definition new_dx_value_string : string := "0xFFFE".
Definition breakdown_string : string := lines ["DX:AX = 0xFFFE:0x0001"; "(32-bit overflow result)"].
Definition detailed_calc_steps : list string :=
  ["Step 1: 0xFFFF × 0xFFFF = 0xFFFE0001"; "Result: 4,294,836,225 decimal";
   "Overflow: Result > 16-bit maximum"].
Definition detailed_result_string : string := "Final Result: DX:AX = 0xFFFE:0x0001".

Definition multiplication_algorithm_string : string :=
  lines ["Multiplication Algorithm:"; "1. Initialize result = 0"; "2. For each bit in multiplier:";
         "   - If bit = 1, add multiplicand"; "   - Shift multiplicand left";
         "3. Store 32-bit result in DX:AX"].

Section ExecStages.
Context (M : metrics).

Definition setup_alu : SM nat :=
  alu_body <- Rectangle (7#2) (11#5) "#00ff80" (1#10) ;;
  move_to alu_body (RIGHT *^ (3#2) +^ DOWN *^ (1#2)) ;;
  alu_label <- Text M (txt "ALU" 28) "#00ff80" ;;
  next_to alu_label alu_body UP (2#10) ;;
  alu_gear <- Text M (txt "⚙" 40) "#00ff80" ;;
  c <- get_center alu_body ;; move_to alu_gear c ;;
  VGroup [alu_body; alu_label; alu_gear].

Definition operand_fetch (ax_reg bx_reg alu : nat) : SM unit :=
  fetch_title <- Text M (txt "Operand Fetch" 32) "#00bfff" ;;
  to_edge fetch_title UP (8#10) ;;
  play [FadeIn fetch_title] (Some 1) ;;
  play [GrowFromCenter alu] (Some (3#2)) ;;
  r <- get_right ax_reg ;; l <- get_left alu ;;
  ax_path <- Arrow (r +^ RIGHT *^ (1#10)) (l +^ UP *^ (6#10) +^ LEFT *^ (1#10)) "#00bfff" 4 ;;
  r <- get_right bx_reg ;; l <- get_left alu ;;
  bx_path <- Arrow (r +^ RIGHT *^ (1#10)) (l +^ DOWN *^ (6#10) +^ LEFT *^ (1#10)) "#00bfff" 4 ;;
  play [GrowArrow ax_path; GrowArrow bx_path] (Some (3#2)) ;;
  play [SetStrokeAnim ax_reg (Some "#00bfff") (Some 4) (Some (8#10));
        SetStrokeAnim bx_reg (Some "#00bfff") (Some 4) (Some (8#10))] (Some 1) ;;
  ax_dot <- Dot "#00bfff" ;; p <- get_start ax_path ;; move_to ax_dot p ;;
  bx_dot <- Dot "#00bfff" ;; p <- get_start bx_path ;; move_to bx_dot p ;;
  add [ax_dot; bx_dot] ;;
  play [MoveAlongPath ax_dot ax_path; MoveAlongPath bx_dot bx_path] (Some 2) ;;
  operand_text <- Text M (txt operand_text_string 12) "#00bfff" ;;
  c <- get_center alu ;; move_to operand_text (c +^ DOWN *^ (3#2)) ;;
  play [FadeIn operand_text] (Some 1) ;;
  play [FadeOut fetch_title; FadeOut ax_dot; FadeOut bx_dot] (Some (8#10)) ;;
  play [FadeOut ax_path; FadeOut bx_path; FadeOut operand_text;
        SetStrokeAnim ax_reg None (Some 0) None; SetStrokeAnim bx_reg None (Some 0) None]
       (Some 1).

Definition execute_multiplication (alu ax_reg bx_reg : nat) : SM unit :=
  exec_title <- Text M (txt "Execute Multiplication" 32) "#00ff80" ;;
  to_edge exec_title UP (8#10) ;;
  play [FadeIn exec_title] (Some 1) ;;
  play [SetStrokeAnim alu (Some "#00ff80") (Some 4) (Some (8#10))] (Some 1) ;;
  gear <- getitem alu 2 ;;
  play [Rotate gear 1 (Some 3)] None ;;
  calc_text <- Text M (txt plain_calc_string 22) "#00ff80" ;;
  next_to calc_text alu DOWN (8#10) ;;
  play [Write calc_text] (Some (3#2)) ;;
  result_text <- Text M (txt plain_result_string 22) "#00ff80" ;;
  next_to result_text calc_text DOWN (4#10) ;;
  play [Write result_text] (Some (3#2)) ;;
  decimal_text <- Text M (txt plain_decimal_string 16) "#80ff80" ;;
  next_to decimal_text result_text DOWN (3#10) ;;
  play [FadeIn decimal_text] (Some 1) ;;
  wait (3#2) ;;
  play [FadeOut exec_title; FadeOut calc_text; FadeOut result_text; FadeOut decimal_text;
        SetStrokeAnim alu None (Some 0) None] (Some (6#5)).

Definition write_back_results (alu ax_reg dx_reg : nat) : SM unit :=
  wb_title <- Text M (txt "Write Back Results" 32) "#00bfff" ;;
  to_edge wb_title UP (8#10) ;;
  play [FadeIn wb_title] (Some 1) ;;
  l <- get_left alu ;; r <- get_right ax_reg ;;
  ax_result_path <- Arrow (l +^ DOWN *^ (4#10) +^ LEFT *^ (1#10)) (r +^ RIGHT *^ (1#10))
                          "#00ff80" 4 ;;
  l <- get_left alu ;; r <- get_right dx_reg ;;
  dx_result_path <- Arrow (l +^ DOWN *^ (8#10) +^ LEFT *^ (1#10)) (r +^ RIGHT *^ (1#10))
                          "#00ff80" 4 ;;
  play [GrowArrow ax_result_path; GrowArrow dx_result_path] (Some (3#2)) ;;
  ax_result_dot <- Dot "#00ff80" ;; p <- get_start ax_result_path ;; move_to ax_result_dot p ;;
  dx_result_dot <- Dot "#00ff80" ;; p <- get_start dx_result_path ;; move_to dx_result_dot p ;;
  add [ax_result_dot; dx_result_dot] ;;
  play [MoveAlongPath ax_result_dot ax_result_path;
        MoveAlongPath dx_result_dot dx_result_path] (Some 2) ;;
  new_ax_value <- Text M (txt new_ax_value_string 18) "#00ff80" ;;
  v <- getitem ax_reg 2 ;; c <- get_center v ;; move_to new_ax_value c ;;
  new_dx_value <- Text M (txt new_dx_value_string 18) "#00ff80" ;;
  v <- getitem dx_reg 2 ;; c <- get_center v ;; move_to new_dx_value c ;;
  a2 <- getitem ax_reg 2 ;; d2 <- getitem dx_reg 2 ;;
  play [Transform a2 new_ax_value; Transform d2 new_dx_value] (Some (3#2)) ;;
  play [SetStrokeAnim ax_reg (Some "#00ff80") (Some 4) (Some (8#10));
        SetStrokeAnim dx_reg (Some "#00ff80") (Some 4) (Some (8#10))] (Some 1) ;;
  breakdown_text <- Text M (txt breakdown_string 16) "#80ff80" ;;
  move_to breakdown_text (RIGHT *^ 4 +^ DOWN *^ (5#2)) ;;
  play [FadeIn breakdown_text] (Some (3#2)) ;;
  wait 1 ;;
  play [FadeOut wb_title; FadeOut ax_result_dot; FadeOut dx_result_dot] (Some (8#10)) ;;
  play [FadeOut ax_result_path; FadeOut dx_result_path; FadeOut breakdown_text;
        SetStrokeAnim ax_reg None (Some 0) None; SetStrokeAnim dx_reg None (Some 0) None]
       (Some 1).

(** [get_center()[1] > 1.5 and get_center()[0] > 1]. *)
Definition upper_right (s : scene) (i : nat) : bool :=
  Qlt_bool (3#2) (vy (center_of s i)) && Qlt_bool 1 (vx (center_of s i)).

Definition setup_alu_detailed : SM nat :=
  remove_where_nonempty upper_right ;;
  setup_alu.

(** [getattr(obj, 'font_size', 0) < 20]. *)
Definition font_lt_20 (s : scene) (i : nat) : bool :=
  match font_size_of s i with Some fs => Qlt_bool fs 20 | None => false end.

Definition operand_fetch_detailed (ax_reg bx_reg alu : nat) : SM unit :=
  remove_where_nonempty font_lt_20 ;;
  operand_fetch ax_reg bx_reg alu.

(** [font_size > 20 and get_center()[1] > 2]. *)
Definition big_text_high (s : scene) (i : nat) : bool :=
  match font_size_of s i with
  | Some fs => Qlt_bool 20 fs && Qlt_bool 2 (vy (center_of s i))
  | None => false
  end.

Definition execute_multiplication_detailed (alu ax_reg bx_reg : nat) : SM unit :=
  remove_where big_text_high ;;
  exec_title <- Text M (txt "Execute Multiplication" 36) "#00ff80" ;;
  to_edge exec_title UP (1#2) ;;
  play [FadeIn exec_title] (Some 1) ;;
  play [SetStrokeAnim alu (Some "#00ff80") (Some 4) (Some (8#10))] (Some 1) ;;
  multiplication_steps <- Text M (TS multiplication_algorithm_string 14 (11#10) false)
                                 "#80ff80" ;;
  move_to multiplication_steps (RIGHT *^ 5 +^ UP *^ (1#2)) ;;
  play [FadeIn multiplication_steps] (Some 2) ;;
  wait 2 ;;
  gear <- getitem alu 2 ;;
  play [Rotate gear 2 (Some 4)] None ;;
  step_group <- VGroup [] ;;
  st_for (enumerate detailed_calc_steps) (fun p =>
    let '(i, step) := p in
    step_text <- Text M (txt step 14) "#00ff80" ;;
    c <- get_center alu ;;
    move_to step_text (c +^ DOWN *^ ((3#2) + qnat i * (4#10))) ;;
    vg_add step_group [step_text]) ;;
  steps <- submobjects step_group ;;
  st_for steps (fun step_text => play [FadeIn step_text] (Some 1) ;; wait (1#2)) ;;
  result_text <- Text M (txt detailed_result_string 18) "#00ff80" ;;
  next_to result_text step_group DOWN (1#2) ;;
  play [FadeIn result_text] (Some (3#2)) ;;
  wait 2 ;;
  play [FadeOut exec_title; FadeOut multiplication_steps; FadeOut step_group;
        FadeOut result_text; SetStrokeAnim alu None (Some 0) None] (Some 2).

Definition write_back_results_detailed (alu ax_reg dx_reg : nat) : SM unit :=
  remove_where_nonempty font_lt_20 ;;
  write_back_results alu ax_reg dx_reg.
End ExecStages.
