(* ===== verification/FinalStages.v ===== *)
(** * The last stages of [MUL8086Animation]

    [update_flags] (lines 681-747) and [final_summary] (749-799), which
    [construct] does not call, [update_flags_detailed] (925-1022),
    [performance_analysis] (1024-1088) and [final_summary_extended]
    (1090-1144) of [src/manim_8086_mul.py].  The flag values, the cycle
    counts and the summaries are named constants.  The cycle labels
    [f"{cycle}"] are printed by [nat_to_string]. *)

From S2P Require Import Prelude Geometry Mobject Scene SetupStages.

Local Open Scope Q_scope.
Local Open Scope vec_scope.
Local Open Scope sm_scope.

(** ** The values the stages display *)

Definition plain_flag_values : string * string := ("0", "0").
Definition plain_flag_explanation : string := "CF=0, OF=0: Result fits in 16 bits".

Definition plain_summary_string : string :=
  lines ["MUL BX Instruction Executed Successfully"; EmptyString; "Original Values:";
         "AX = 0x9000 (36864 decimal)"; "BX = 0x0003 (3 decimal)"; EmptyString; "Final Result:";
         "DX:AX = 0x0001:0xB200"; "= 110592 decimal"].

(** [cf_value], [of_value], [sf_value], [zf_value] of the detailed flags. *)
Definition detailed_flag_values : string * string * string * string := ("1", "1", "0", "0").
Definition detailed_flag_explanation : string :=
  lines ["Flag Conditions for MUL:"; "CF=1, OF=1: Overflow occurred (result ≥ 65536)";
         "SF=0: Result is positive"; "ZF=0: Result is not zero"].

Definition performance_metrics_string : string :=
  lines ["8086 MUL Instruction Performance:"; EmptyString; "Clock Cycles: 70-77 cycles";
         "Execution Time: 14-15.4 μs @ 5MHz"; "Memory Access: 2 reads, 0 writes";
         "Register Updates: AX, DX, Flags"; EmptyString; "Comparison with Modern CPUs:";
         "Modern x86: 1-3 cycles"; "Speedup Factor: 25-75x faster!"].

(** [stages] and [cycles] of the timing diagram. *)
Definition timing_stages : list string := ["Fetch"; "Decode"; "Execute"; "Flags"].
Definition timing_cycles : list nat := [4; 3; 70; 2]%nat.

Definition extended_summary_string : string :=
  lines ["8086 MUL BX Instruction - Complete Execution Summary"; EmptyString; "Initial State:";
         "  • AX (Accumulator) = 0xFFFF (65,535 decimal)";
         "  • BX (Base) = 0xFFFF (65,535 decimal)"; "  • DX (Data) = 0x0000"; EmptyString;
         "Final Result:"; "  • DX:AX = 0xFFFE:0x0001 (4,294,836,225 decimal)";
         "  • Mathematical verification: 65,535 × 65,535 = 4,294,836,225 ✓";
         "  • Overflow occurred: CF=1, OF=1"; EmptyString; "CPU Cycle Summary:";
         "  • Total execution time: ~77 clock cycles";
         "  • Flags updated: CF=1, OF=1, SF=0, ZF=0";
         "  • Memory accesses: 2 instruction fetches"].

(** [f"{n}"] for a natural number. *)
Fixpoint digits_rev (fuel n : nat) : list Ascii.ascii :=
  match fuel with
  | O => []
  | S f => Ascii.ascii_of_nat (48 + n mod 10) ::
             (if (n <? 10)%nat then [] else digits_rev f (n / 10))
  end.
Definition nat_to_string (n : nat) : string :=
  String.string_of_list_ascii (rev (digits_rev (S n) n)).

Section FinalStages.
Context (M : metrics).

(** One flash of the flags: highlight, then set the stroke width to 0. *)
Definition flash (flags : list nat) (rt : Q) : SM unit :=
  play (map (fun f => SetStrokeAnim f (Some "#ffff00") (Some 4) (Some (8#10))) flags) (Some rt) ;;
  play (map (fun f => SetStrokeAnim f None (Some 0) None) flags) (Some rt).

Definition update_flags : SM unit :=
  flags_title <- Text M (txt "Update Status Flags" 32) "#ffff00" ;;
  to_edge flags_title UP (8#10) ;;
  play [FadeIn flags_title] (Some 1) ;;
  cf_box <- Rectangle 2 1 "#ffff00" (1#10) ;;
  of_box <- Rectangle 2 1 "#ffff00" (1#10) ;;
  to_edge cf_box RIGHT (3#2) ;; shift cf_box (UP *^ (3#2)) ;;
  next_to of_box cf_box DOWN (8#10) ;;
  cf_label <- Text M (txt "CF (Carry)" 16) "#ffff00" ;;
  next_to cf_label cf_box UP (2#10) ;;
  cf_value <- Text M (txt plain_flag_values.1 20) WHITE ;;
  c <- get_center cf_box ;; move_to cf_value c ;;
  of_label <- Text M (txt "OF (Overflow)" 16) "#ffff00" ;;
  next_to of_label of_box UP (2#10) ;;
  of_value <- Text M (txt plain_flag_values.2 20) WHITE ;;
  c <- get_center of_box ;; move_to of_value c ;;
  cf_flag <- VGroup [cf_box; cf_label; cf_value] ;;
  of_flag <- VGroup [of_box; of_label; of_value] ;;
  play [GrowFromCenter cf_flag; GrowFromCenter of_flag] (Some (3#2)) ;;
  st_for (seq 0 2) (fun _ => flash [cf_flag; of_flag] (4#10)) ;;
  flag_explanation <- Text M (txt plain_flag_explanation 16) "#ffff80" ;;
  to_edge flag_explanation DOWN (6#5) ;;
  play [FadeIn flag_explanation] (Some (3#2)) ;;
  wait 1 ;;
  play [FadeOut flags_title; FadeOut cf_flag; FadeOut of_flag; FadeOut flag_explanation]
       (Some (6#5)).

Definition final_summary (ax_reg dx_reg : nat) : SM unit :=
  clear ;;
  add [ax_reg; dx_reg] ;;
  final_title <- Text M (txt "Execution Complete" 42) "#00ff80" ;;
  move_to final_title ORIGIN ;; shift final_title (UP *^ 3) ;;
  summary <- Text M (TS plain_summary_string 20 (7#5) false) WHITE ;;
  next_to summary final_title DOWN 1 ;;
  to_edge ax_reg LEFT 2 ;; shift ax_reg (DOWN *^ 1) ;;
  next_to dx_reg ax_reg DOWN (1#2) ;;
  play [FadeIn final_title] (Some 2) ;;
  play [Write summary] (Some 3) ;;
  play [SetStrokeAnim ax_reg (Some "#00ff80") (Some 6) (Some 1);
        SetStrokeAnim dx_reg (Some "#00ff80") (Some 6) (Some 1)] (Some 2) ;;
  wait 3.

(** [get_center()[1] < -1]. *)
Definition below_m1 (s : scene) (i : nat) : bool := Qlt_bool (vy (center_of s i)) (-1).

Definition update_flags_detailed : SM unit :=
  remove_where below_m1 ;;
  flags_title <- Text M (txt "Update Status Flags" 36) "#ffff00" ;;
  to_edge flags_title UP (1#2) ;;
  play [FadeIn flags_title] (Some 1) ;;
  cf_box <- Rectangle (9#5) (4#5) "#ffff00" (1#10) ;;
  of_box <- Rectangle (9#5) (4#5) "#ffff00" (1#10) ;;
  sf_box <- Rectangle (9#5) (4#5) "#ffff00" (1#10) ;;
  zf_box <- Rectangle (9#5) (4#5) "#ffff00" (1#10) ;;
  move_to cf_box (RIGHT *^ 1 +^ DOWN *^ (1#2)) ;;
  next_to of_box cf_box RIGHT (3#10) ;;
  next_to sf_box of_box RIGHT (3#10) ;;
  next_to zf_box sf_box RIGHT (3#10) ;;
  let '(cf_v, of_v, sf_v, zf_v) := detailed_flag_values in
  cf_label <- Text M (txt "CF" 16) "#ffff00" ;;
  next_to cf_label cf_box UP (5#100) ;;
  cf_value <- Text M (txt cf_v 18) WHITE ;;
  c <- get_center cf_box ;; move_to cf_value c ;;
  of_label <- Text M (txt "OF" 16) "#ffff00" ;;
  next_to of_label of_box UP (5#100) ;;
  of_value <- Text M (txt of_v 18) WHITE ;;
  c <- get_center of_box ;; move_to of_value c ;;
  sf_label <- Text M (txt "SF" 16) "#ffff00" ;;
  next_to sf_label sf_box UP (5#100) ;;
  sf_value <- Text M (txt sf_v 18) WHITE ;;
  c <- get_center sf_box ;; move_to sf_value c ;;
  zf_label <- Text M (txt "ZF" 16) "#ffff00" ;;
  next_to zf_label zf_box UP (5#100) ;;
  zf_value <- Text M (txt zf_v 18) WHITE ;;
  c <- get_center zf_box ;; move_to zf_value c ;;
  cf_flag <- VGroup [cf_box; cf_label; cf_value] ;;
  of_flag <- VGroup [of_box; of_label; of_value] ;;
  sf_flag <- VGroup [sf_box; sf_label; sf_value] ;;
  zf_flag <- VGroup [zf_box; zf_label; zf_value] ;;
  play [GrowFromCenter cf_flag] (Some 1) ;;
  play [GrowFromCenter of_flag] (Some 1) ;;
  play [GrowFromCenter sf_flag] (Some 1) ;;
  play [GrowFromCenter zf_flag] (Some 1) ;;
  flag_explanation <- Text M (TS detailed_flag_explanation 12 (11#10) false) "#ffff80" ;;
  move_to flag_explanation (LEFT *^ 2 +^ DOWN *^ 2) ;;
  play [FadeIn flag_explanation] (Some 2) ;;
  wait 3 ;;
  st_for (seq 0 2) (fun _ => flash [cf_flag; of_flag; sf_flag; zf_flag] (1#2)) ;;
  wait 2 ;;
  play [FadeOut flags_title; FadeOut cf_flag; FadeOut of_flag; FadeOut sf_flag;
        FadeOut zf_flag; FadeOut flag_explanation] (Some 2).

(** [get_center()[0] < -1]. *)
Definition left_of_m1 (s : scene) (i : nat) : bool := Qlt_bool (vx (center_of s i)) (-1).

Definition performance_analysis : SM unit :=
  elements_to_keep <- st_gets (fun s => filter (fun i => left_of_m1 s i = true) (sc_mobjects s)) ;;
  clear ;;
  match elements_to_keep with [] => st_ret tt | _ => add elements_to_keep end ;;
  perf_title <- Text M (txt "Performance Analysis" 42) "#ff8080" ;;
  to_edge perf_title UP (1#2) ;;
  play [FadeIn perf_title] (Some (3#2)) ;;
  perf_metrics <- Text M (TS performance_metrics_string 18 (13#10) false) "#ff8080" ;;
  move_to perf_metrics (LEFT *^ 2) ;;
  play [FadeIn perf_metrics] (Some 3) ;;
  wait 4 ;;
  timing_title <- Text M (txt "Instruction Timing" 18) "#ffff00" ;;
  move_to timing_title (RIGHT *^ 4 +^ UP *^ 2) ;;
  timing_bars <- VGroup [] ;;
  st_for (enumerate (zip timing_stages timing_cycles)) (fun p =>
    let '(i, (stage, cycle)) := p in
    bar <- Rectangle (qnat cycle * (1#10)) (3#10) "#80ff80" (7#10) ;;
    move_to bar (RIGHT *^ 4 +^ UP *^ ((3#2) - qnat i * (35#100))) ;;
    stage_label <- Text M (txt stage 14) WHITE ;;
    next_to stage_label bar LEFT (3#10) ;;
    cycle_label <- Text M (txt (nat_to_string cycle) 12) "#80ff80" ;;
    next_to cycle_label bar RIGHT (1#10) ;;
    vg_add timing_bars [bar; stage_label; cycle_label]) ;;
  play [FadeIn timing_title] (Some 1) ;;
  play [FadeIn timing_bars] (Some 2) ;;
  wait 3 ;;
  play [FadeOut perf_title; FadeOut perf_metrics; FadeOut timing_title; FadeOut timing_bars]
       (Some 2).

Definition final_summary_extended (ax_reg dx_reg : nat) : SM unit :=
  clear ;;
  move_to ax_reg (LEFT *^ 5 +^ UP *^ 1) ;;
  move_to dx_reg (LEFT *^ 5 +^ DOWN *^ (1#2)) ;;
  add [ax_reg; dx_reg] ;;
  final_title <- Text M (txt "Execution Complete" 48) "#00ff80" ;;
  move_to final_title (ORIGIN +^ UP *^ (16#5)) ;;
  summary <- Text M (TS extended_summary_string 12 (11#10) false) WHITE ;;
  move_to summary (RIGHT *^ (3#2) +^ DOWN *^ (1#2)) ;;
  play [FadeIn final_title] (Some 2) ;;
  wait 1 ;;
  play [Write summary] (Some 4) ;;
  wait 1 ;;
  play [SetStrokeAnim ax_reg (Some "#00ff80") (Some 6) (Some 1);
        SetStrokeAnim dx_reg (Some "#00ff80") (Some 6) (Some 1)] (Some 2) ;;
  thank_you <- Text M (txt "Thank You for Watching!" 28) "#00bfff" ;;
  move_to thank_you (DOWN *^ (16#5)) ;;
  play [FadeIn thank_you] (Some 2) ;;
  wait 5.
End FinalStages.
