(* ===== verification/Construct.v ===== *)
(** * [MUL8086Animation.construct] and [TestAnimation.construct]

    [construct] (lines 9-58 of [src/manim_8086_mul.py]) sets the
    background and runs the thirteen stages, threading the values they
    return.  It is defined once as [construct_with probe], where [probe k]
    runs after stage [k] (the numbering of the source's comments);
    [construct] takes the probe that does nothing, so it is the source's
    sequence of calls ([st_bind (st_ret tt) k] reduces to [k]).
    [after_stage M k] interrupts the run after stage [k] and returns the
    scene there.  [test_construct] is [src/test_manim.py].

    [ref_metrics] is the text renderer the concrete theorems use: a line
    of [n] characters at font size [f] is [n * f / 120] units wide and
    [f / 80] units high (about 0.4 and 0.6 units per character and per
    line at manim's default size 48). *)

From S2P Require Import Prelude Geometry Mobject Scene SetupStages ExecStages FinalStages.

Local Open Scope Q_scope.
Local Open Scope sm_scope.

Section Construct.
Context (M : metrics).

Definition construct_with (probe : nat -> SM unit) : SM unit :=
  set_background "#0a0a0a" ;;
  intro_scene_extended M ;; probe 1%nat ;;
  cpu_architecture_overview M ;; probe 2%nat ;;
  regs <- setup_registers_detailed M ;;
  let '(ax_reg, bx_reg, dx_reg) := regs in probe 3%nat ;;
  mem <- setup_memory_and_pc_detailed M ;;
  let '(memory_cell, pc_arrow, ir_reg) := mem in probe 4%nat ;;
  instruction_fetch_detailed M memory_cell pc_arrow ir_reg ;; probe 5%nat ;;
  control_unit <- decode_instruction_detailed M ir_reg ;; probe 6%nat ;;
  alu <- setup_alu_detailed M ;; probe 7%nat ;;
  operand_fetch_detailed M ax_reg bx_reg alu ;; probe 8%nat ;;
  execute_multiplication_detailed M alu ax_reg bx_reg ;; probe 9%nat ;;
  write_back_results_detailed M alu ax_reg dx_reg ;; probe 10%nat ;;
  update_flags_detailed M ;; probe 11%nat ;;
  performance_analysis M ;; probe 12%nat ;;
  final_summary_extended M ax_reg dx_reg ;; probe 13%nat.

Definition construct : SM unit := construct_with (fun _ => st_ret tt).

Definition interrupt_at (k : nat) (i : nat) : SM unit :=
  if (i =? k)%nat then st_raise KeyboardInterrupt else st_ret tt.

(** The scene right after stage [k]. *)
Definition after_stage (k : nat) : scene :=
  st_exec (construct_with (interrupt_at k)) empty_scene.

(** [TestAnimation.construct] of [src/test_manim.py]. *)
Definition test_construct : SM unit :=
  set_background "#0a0a0a" ;;
  title <- Text M (txt "8086 MUL Test" 72) "#00bfff" ;;
  title_glow <- copy title ;;
  set_stroke title_glow (Some "#00bfff") (Some 8) (Some (3#10)) ;;
  play [FadeIn title_glow; Write title] (Some 2) ;;
  wait 1 ;;
  play [FadeOut title; FadeOut title_glow] (Some 1).
End Construct.

(** ** The reference text renderer *)

Fixpoint line_lengths (s : string) (cur : nat) : list nat :=
  match s with
  | EmptyString => [cur]
  | String c r =>
      if Ascii.eqb c (Ascii.ascii_of_nat 10) then cur :: line_lengths r 0 else line_lengths r (S cur)
  end.

Definition ref_metrics : metrics := {|
  text_width := fun t => qnat (foldr Nat.max 0%nat (line_lengths (t_text t) 0)) * t_font_size t * (1#120);
  text_height := fun t => qnat (length (line_lengths (t_text t) 0)) * t_font_size t * (1#80);
|}.

(** ** Describing what is drawn *)

(** The kinds and texts of an object's family, in sub-object order: a
    register group reads [["Rectangle"; "AX"; "0xFFFF"; "Accumulator"]]. *)
Fixpoint describe_fuel (st : gmap nat mob) (fuel i : nat) : list string :=
  match fuel with
  | O => []
  | S f =>
      match st !! i with
      | Some m =>
          match m_shape m with
          | SText t => [t_text t]
          | SRect _ _ => ["Rectangle"]
          | SArrow _ _ => ["Arrow"]
          | SDot => ["Dot"]
          | SGroup => concat (map (describe_fuel st f) (m_subs m))
          end
      | None => []
      end
  end.

Definition describe (s : scene) (i : nat) : list string :=
  describe_fuel (sc_store s) (S (size (all_children (sc_store s)))) i.

Definition drawn (s : scene) : list (list string) := map (describe s) (sc_mobjects s).

(** The objects of the store, drawn or not, whose description is [d]. *)
Definition find_described (s : scene) (d : list string) : list nat :=
  filter (fun i => bool_decide (describe s i = d)) (elements (dom (sc_store s))).

(** The object reached from [i] by following sub-object indices [p]
    ([reg[0]] is [at_path st reg [0]]). *)
Fixpoint at_path (st : gmap nat mob) (i : nat) (p : list nat) : option mob :=
  match p with
  | [] => st !! i
  | k :: r => children st i !! k ≫= fun j => at_path st j r
  end.

Definition drawn_at (s : scene) (k : nat) (p : list nat) : option mob :=
  sc_mobjects s !! k ≫= fun i => at_path (sc_store s) i p.

Definition stroke_width_at (s : scene) (k : nat) (p : list nat) : option Q :=
  (fun m => st_stroke_width (m_style m)) <$> drawn_at s k p.

(** The final scene and the outcome of a whole run. *)
Definition final_scene (M : metrics) : scene := st_exec (construct M) empty_scene.

(** ** Running the program *)

(** The probe only matters at the indices [construct_with] calls it at. *)
Lemma construct_with_ext M p q :
  (forall i, (1 <= i <= 13)%nat -> p i = q i) -> construct_with M p = construct_with M q.
Proof.
  intros H. unfold construct_with.
  rewrite (H 1%nat), (H 2%nat), (H 3%nat), (H 4%nat), (H 5%nat), (H 6%nat), (H 7%nat),
    (H 8%nat), (H 9%nat), (H 10%nat), (H 11%nat), (H 12%nat), (H 13%nat) by lia.
  reflexivity.
Qed.

(** Interrupting at an index the program never reaches runs it to the end. *)
Lemma after_stage_unreached M k :
  (k = 0 \/ 13 < k)%nat -> after_stage M k = final_scene M.
Proof.
  intros Hk. unfold after_stage, final_scene, construct. f_equal.
  apply construct_with_ext. intros i Hi. unfold interrupt_at.
  destruct (Nat.eqb_spec i k); [lia | done].
Qed.

(** C11: the scene invariant ([scene_ok]: the store is a forest and the
    drawn objects have pairwise disjoint families) holds after every stage
    of the reference run, and at its end. *)
Theorem construct_scene_ok k : scene_ok (after_stage ref_metrics k).
Proof.
  destruct (decide (k <= 13)%nat) as [Hk|Hk].
  - do 14 (destruct k as [|k]; [decide_vm|]). lia.
  - rewrite after_stage_unreached by lia. decide_vm.
Qed.

(** C3: after the register stage, exactly the three register groups are
    drawn, AX and BX holding [0xFFFF] and DX [0x0000]. *)
Theorem stage3_registers :
  drawn (after_stage ref_metrics 3) =
  [["Rectangle"; "AX"; "0xFFFF"; "Accumulator"];
   ["Rectangle"; "BX"; "0xFFFF"; "Base Register"];
   ["Rectangle"; "DX"; "0x0000"; "Data Register"]].
Proof. vm_compute. reflexivity. Qed.

(** C4: the last frame shows AX and DX with their results, the completion
    text, the extended summary and the closing text; BX is no longer drawn. *)
Theorem final_frame :
  drawn (final_scene ref_metrics) =
  [["Rectangle"; "AX"; "0x0001"; "Accumulator"];
   ["Rectangle"; "DX"; "0xFFFE"; "Data Register"];
   ["Execution Complete"]; [extended_summary_string]; ["Thank You for Watching!"]].
Proof. vm_compute. reflexivity. Qed.


(** ** What the frames show *)

(** C6: [setup_alu_detailed] clears the upper right by the centres of
    the top-level objects: the memory cell and the PC arrow go, but the
    PC label, placed left of the arrow, stays drawn without it. *)
Theorem pc_label_orphaned :
  (["Arrow"] ∈ drawn (after_stage ref_metrics 6)) /\ (["PC"] ∈ drawn (after_stage ref_metrics 6)) /\
  (["Arrow"] ∉ drawn (after_stage ref_metrics 7)) /\ (["PC"] ∈ drawn (after_stage ref_metrics 7)).
Proof. decide_vm. Qed.

(** C7: the highlight of the registers is undone by [set_stroke(width=0)]:
    the AX and BX boxes are outlined with width 4 after the register
    stage, and have no outline left after the operand fetch and until the
    summary. *)
Theorem register_outline_lost :
  stroke_width_at (after_stage ref_metrics 3) 0 [0%nat] = Some 4 /\
  stroke_width_at (after_stage ref_metrics 3) 1 [0%nat] = Some 4 /\
  stroke_width_at (after_stage ref_metrics 8) 0 [0%nat] = Some 0 /\
  stroke_width_at (after_stage ref_metrics 8) 1 [0%nat] = Some 0 /\
  stroke_width_at (after_stage ref_metrics 12) 0 [0%nat] = Some 0.
Proof. vm_compute. split_and!; reflexivity. Qed.

(** C8: the ZF flag, placed right of SF, extends past the right edge of
    the frame ([frame_x_radius] is 64/9). *)
Theorem zf_flag_off_frame :
  map (fun g => bbox_of (after_stage ref_metrics 11) g)
      (find_described (after_stage ref_metrics 11) ["Rectangle"; "ZF"; "0"]) =
  [BB (32 # 5) (41 # 5) (-9 # 10) (3 # 20)] /\
  Qlt_bool (frame_x_radius config) (41 # 5) = true.
Proof. vm_compute. split; reflexivity. Qed.

(** C9: the cycle count of the Execute bar of the timing diagram, the
    [70], lies entirely right of the frame: it is never visible. *)
Theorem execute_cycles_invisible :
  map (fun g => bx_min (bbox_of (after_stage ref_metrics 12) g))
      (find_described (after_stage ref_metrics 12) ["70"]) = [38 # 5] /\
  Qlt_bool (frame_x_radius config) (38 # 5) = true.
Proof. vm_compute. split; reflexivity. Qed.

(** C10: while the flags are shown, the DX register is not drawn:
    [update_flags_detailed] removes the objects below y = -1, which
    includes the register that has just received the high word. *)
Theorem dx_hidden_during_flags :
  drawn (after_stage ref_metrics 10) !! 2%nat = Some ["Rectangle"; "DX"; "0xFFFE"; "Data Register"] /\
  Forall (fun d => head (tail d) <> Some "DX") (drawn (after_stage ref_metrics 11)).
Proof. split; [vm_compute; reflexivity | decide_vm]. Qed.

(** C12: [TestAnimation] runs without error for 4 seconds and ends with
    nothing drawn. *)
Theorem test_animation_run :
  st_eval (test_construct ref_metrics) empty_scene = Ok tt /\
  sc_mobjects (st_exec (test_construct ref_metrics) empty_scene) = [] /\
  sc_time (st_exec (test_construct ref_metrics) empty_scene) = 4.
Proof. vm_compute. split_and!; reflexivity. Qed.

(** C23: the register groups are stacked at the left edge of the frame,
    half a unit from it, 1.2 units apart, and lie inside the frame. *)
Theorem register_layout :
  map (bbox_of (after_stage ref_metrics 3)) (sc_mobjects (after_stage ref_metrics 3)) =
  [BB (- (64 # 9) + (1 # 2)) (- (64 # 9) + 3) (19 # 10) (31 # 10);
   BB (- (64 # 9) + (1 # 2)) (- (64 # 9) + 3) (-1 # 2) (7 # 10);
   BB (- (64 # 9) + (1 # 2)) (- (64 # 9) + 3) (-29 # 10) (-17 # 10)] /\
  Forall (fun i => bbox_in_frame config (bbox_of (after_stage ref_metrics 3) i) = true)
         (sc_mobjects (after_stage ref_metrics 3)).
Proof. split; [vm_compute; reflexivity | decide_vm]. Qed.

(** C24: after the decode stage the IR shows the instruction bytes, and
    the decoder's bit text and its three control signals are drawn. *)
Theorem decode_stage_shows_signals :
  (["Rectangle"; "IR"; ir_value_string] ∈ drawn (after_stage ref_metrics 6)) /\
  ([opcode_bits_string] ∈ drawn (after_stage ref_metrics 6)) /\
  Forall (fun sig => [sig] ∈ drawn (after_stage ref_metrics 6)) (decode_signals).
Proof. decide_vm. Qed.

(** C21: the registers are carried, not rebuilt: the AX and DX groups of
    the last frame are the very objects the register stage created, and
    BX stays the same object until it is dropped at the summary. *)
Theorem registers_carried :
  let regs := sc_mobjects (after_stage ref_metrics 3) in
  length regs = 3%nat /\
  sc_mobjects (final_scene ref_metrics) !! 0%nat = regs !! 0%nat /\
  sc_mobjects (final_scene ref_metrics) !! 1%nat = regs !! 2%nat /\
  sc_mobjects (after_stage ref_metrics 12) = take 2 regs /\
  regs !! 1%nat ∉ (Some <$> sc_mobjects (final_scene ref_metrics)).
Proof. cbv zeta. split_and!; [vm_compute; reflexivity.. | decide_vm]. Qed.

(** C25: the intro and the architecture overview leave nothing drawn, and
    the memory and PC setup draws nothing and takes no time: the memory
    cell, the PC arrow and its label and the IR appear in the fetch
    stage. *)
Theorem stage_exits :
  drawn (after_stage ref_metrics 1) = [] /\ drawn (after_stage ref_metrics 2) = [] /\
  drawn (after_stage ref_metrics 4) = drawn (after_stage ref_metrics 3) /\
  drawn (after_stage ref_metrics 5) =
    drawn (after_stage ref_metrics 3) ++
    [["Rectangle"; "1000h"; memory_instr_string]; ["Arrow"]; ["PC"];
     ["Rectangle"; "IR"; ir_value_string]].
Proof. vm_compute. split_and!; reflexivity. Qed.
