(* ===== verification/Content.v ===== *)
(** * What the displayed values mean

    The video's numbers are string literals of the source.  This file
    checks them against [MulArith]: the register values written back and
    the strings of the detailed stages agree with the 16-bit [MUL] of the
    values the registers show; the instruction bytes decode to [MUL BX];
    the unused plain stages ([execute_multiplication], [update_flags],
    [final_summary]) display a wrong product, wrong flags and a wrong
    summary; and the cycle counts of the timing diagram do not add up to
    the total the summary states. *)

From S2P Require Import Prelude Mobject Scene SetupStages ExecStages FinalStages Construct MulArith.
From Stdlib Require Import ZArith String.
Import Mul8086 Hex Decimal Encoding.

Local Open Scope Z_scope.

(** The value text of the [k]-th drawn object, when it is a register
    group ([box, label, value, description]). *)
Definition register_value (s : scene) (k : nat) : option string :=
  drawn s !! k ≫= fun d => d !! 2%nat.

Definition register_number (s : scene) (k : nat) : option Z :=
  register_value s k ≫= parse_hex.

(** How the flag boxes show a flag. *)
Definition flag_string (b : bool) : string := if b then "1" else "0".

(** [t in s] of Python strings. *)
Definition contains (s t : string) : bool :=
  match String.index 0 t s with Some _ => true | None => false end.

Definition word_pair (r : mul_result) : string :=
  "DX:AX = " +:+ hex16 (res_dx r) +:+ ":" +:+ hex16 (res_ax r).

(** Instruction bytes as the IR and memory texts write them: two
    hexadecimal digits each, separated by a space. *)
Definition byte_pair (b1 b2 : Z) : string := digits 2 b1 +:+ " " +:+ digits 2 b2.

(** A five-digit hexadecimal result as the plain execution stage writes it. *)
Definition hex_result (v : Z) : string := "= 0x" +:+ digits 5 v.

(** ** The detailed run *)

(** C1: the values written back into AX and DX are the low and the high
    word of the product of the values AX and BX show after the register
    stage; BX keeps its value. *)
Theorem write_back_matches_mul :
  match register_number (after_stage ref_metrics 3) 0, register_number (after_stage ref_metrics 3) 1 with
  | Some a, Some b =>
      register_value (after_stage ref_metrics 10) 0 = Some (hex16 (res_ax (mul16 a b))) /\
      register_value (after_stage ref_metrics 10) 1 = Some (hex16 b) /\
      register_value (after_stage ref_metrics 10) 2 = Some (hex16 (res_dx (mul16 a b)))
  | _, _ => False
  end.
Proof. vm_compute. split_and!; reflexivity. Qed.

(** C13: the texts of the detailed execution and write-back stages agree
    with [MUL] on 0xFFFF and 0xFFFF: the operands, the 32-bit product in
    hexadecimal and decimal, the overflow, and DX:AX. *)
Theorem detailed_texts_consistent :
  let r := mul16 65535 65535 in
  operand_text_string = lines ["AX: " +:+ hex16 65535; "BX: " +:+ hex16 65535] /\
  detailed_calc_steps =
    ["Step 1: " +:+ hex16 65535 +:+ " × " +:+ hex16 65535 +:+ " = " +:+ hex32 (65535 * 65535);
     "Result: " +:+ dec_commas (65535 * 65535) +:+ " decimal";
     "Overflow: Result > 16-bit maximum"] /\
  res_cf r = true /\
  new_ax_value_string = hex16 (res_ax r) /\ new_dx_value_string = hex16 (res_dx r) /\
  breakdown_string = lines [word_pair r; "(32-bit overflow result)"] /\
  detailed_result_string = "Final Result: " +:+ word_pair r.
Proof. vm_compute. split_and!; reflexivity. Qed.

(** C14: the flag values of the detailed flag stage are the CF and OF of
    [MUL] on the displayed operands, and the explanation and the summary
    state them. *)
Theorem detailed_flags_consistent :
  let r := mul16 65535 65535 in
  detailed_flag_values.1.1.1 = flag_string (res_cf r) /\
  detailed_flag_values.1.1.2 = flag_string (res_of r) /\
  contains detailed_flag_explanation
    ("CF=" +:+ flag_string (res_cf r) +:+ ", OF=" +:+ flag_string (res_of r)) = true /\
  contains extended_summary_string
    ("Overflow occurred: CF=" +:+ flag_string (res_cf r) +:+ ", OF=" +:+ flag_string (res_of r))
  = true.
Proof. vm_compute. split_and!; reflexivity. Qed.

(** C15: the extended summary states the initial values, the result and
    the product as [MUL] computes them. *)
Theorem summary_consistent :
  let r := mul16 65535 65535 in
  contains extended_summary_string ("AX (Accumulator) = " +:+ hex16 65535 +:+ " (" +:+ dec_commas 65535 +:+ " decimal)") = true /\
  contains extended_summary_string ("BX (Base) = " +:+ hex16 65535 +:+ " (" +:+ dec_commas 65535 +:+ " decimal)") = true /\
  contains extended_summary_string (word_pair r +:+ " (" +:+ dec_commas (65535 * 65535) +:+ " decimal)") = true /\
  contains extended_summary_string (dec_commas 65535 +:+ " × " +:+ dec_commas 65535 +:+ " = " +:+ dec_commas (res_dx r * 2 ^ 16 + res_ax r)) = true.
Proof. vm_compute. split_and!; reflexivity. Qed.

(** C16: the instruction bytes [F7 E3] in memory and in IR decode to
    [MUL BX], and the decoder's text shows the bits of the opcode and of
    the [reg] field of the ModRM byte. *)
Theorem instruction_decodes :
  decode 247 227 = Some (MUL, BX) /\
  ir_value_string = byte_pair 247 227 /\
  memory_instr_string = lines [ir_value_string; "(MUL BX)"] /\
  opcode_bits_string =
    lines ["F7 = " +:+ bin 8 247; "4 = " +:+ bin 3 (modrm_reg 227) +:+ " (reg)"].
Proof. vm_compute. split_and!; reflexivity. Qed.

(** ** The plain stages, which [construct] does not call *)

(** C17: [execute_multiplication] shows the decimal product of 0x9000
    and 0x0003 correctly, but its hexadecimal result is 0x200 too large:
    0x1B200 instead of 0x1B000. *)
Theorem plain_result_wrong :
  match parse_hex plain_ax_value_string, parse_hex plain_bx_value_string with
  | Some a, Some b =>
      plain_calc_string = plain_ax_value_string +:+ " × " +:+ plain_bx_value_string /\
      plain_decimal_string = "(" +:+ dec (a * b) +:+ " decimal)" /\
      plain_result_string <> hex_result (a * b) /\
      plain_result_string = hex_result (a * b + 512)
  | _, _ => False
  end.
Proof. vm_compute. split_and!; [reflexivity | reflexivity | discriminate | reflexivity]. Qed.

(** C18: [final_summary] states DX:AX = 0x0001:0xB200, but [MUL] of
    0x9000 and 0x0003 leaves 0xB000 in AX. *)
Theorem plain_summary_wrong :
  match parse_hex plain_ax_value_string, parse_hex plain_bx_value_string with
  | Some a, Some b =>
      hex16 (res_ax (mul16 a b)) = "0xB000" /\
      contains plain_summary_string (word_pair (mul16 a b)) = false /\
      contains plain_summary_string "DX:AX = 0x0001:0xB200" = true
  | _, _ => False
  end.
Proof. vm_compute. split_and!; reflexivity. Qed.

(** C19: [update_flags] shows CF=0 and OF=0 and explains that the result
    fits in 16 bits, but the product 0x1B000 does not: [MUL] sets both. *)
Theorem plain_flags_wrong :
  match parse_hex plain_ax_value_string, parse_hex plain_bx_value_string with
  | Some a, Some b =>
      res_cf (mul16 a b) = true /\ res_of (mul16 a b) = true /\
      plain_flag_values = (flag_string false, flag_string false) /\
      contains plain_flag_explanation "fits in 16 bits" = true
  | _, _ => False
  end.
Proof. vm_compute. split_and!; reflexivity. Qed.

(** ** The timing figures *)

(** C20: the four bars of the timing diagram count 79 cycles, while the
    summary states about 77 and the performance text 70 to 77. *)
Theorem cycle_total_mismatch :
  sum_list timing_cycles = 79%nat /\
  contains extended_summary_string "~77 clock cycles" = true /\
  contains performance_metrics_string "Clock Cycles: 70-77 cycles" = true.
Proof. vm_compute. split_and!; reflexivity. Qed.
