(* ===== verification/Errors.v ===== *)
(** * Error paths of the stages

    The stages index the groups they receive: [alu[2]] is the gear,
    [ax_reg[2]] and [dx_reg[2]] the value texts.  Python raises
    [IndexError] when such a group is shorter than the code assumes.  This
    file shows that the model takes that path: from any scene in which
    the group exists as a [VGroup] with too few members, the stage returns
    through its first steps, which neither raise nor change the group or
    its members ([members_are]), and then raises [IndexError] at the
    lookup
    ([st_raises], [st_raises_after] of [Prelude]).  [construct] never
    takes these paths ([Skeleton.construct_returns]); they are the
    contract a caller of the stage must meet.  They are stated for a
    [VGroup] only: manim indexes any other object through its own points
    and its glyph or tip sub-objects, which the model does not have. *)

From S2P Require Import Prelude Geometry Mobject Scene SetupStages ExecStages.

Local Open Scope Q_scope.
Local Open Scope sm_scope.

(** ** Steps that return *)

Lemma new_mob_total m : st_ok (new_mob m).
Proof. intros s. by eexists. Qed.

Lemma Text_total M t c : st_ok (Text M t c).
Proof. apply new_mob_total. Qed.

Lemma Arrow_total st en col w : st_ok (Arrow st en col w).
Proof. unfold Arrow. case_match. apply new_mob_total. Qed.
Lemma Dot_total col : st_ok (Dot col).
Proof. apply new_mob_total. Qed.

#[export] Hint Resolve new_mob_total Text_total Arrow_total Dot_total : ok_db.

Lemma move_to_total i p : st_ok (move_to i p).
Proof. unfold move_to. ok_auto. Qed.
Lemma to_edge_total i d b : st_ok (to_edge i d b).
Proof. unfold to_edge. ok_auto. Qed.
Lemma next_to_total i j d b : st_ok (next_to i j d b).
Proof. unfold next_to. ok_auto. Qed.
Lemma remove_where_total p : st_ok (remove_where p).
Proof. unfold remove_where. ok_auto. Qed.
Lemma remove_where_nonempty_total p : st_ok (remove_where_nonempty p).
Proof. unfold remove_where_nonempty. ok_auto. Qed.

#[export] Hint Resolve move_to_total to_edge_total next_to_total remove_where_total
  remove_where_nonempty_total : ok_db.

(** [Scene.play] of at least one animation returns. *)
Lemma play_total anims rt : anims <> [] -> st_ok (play anims rt).
Proof.
  intros Hne. destruct anims as [|a anims]; [done|]. unfold play.
  apply st_ok_bind; [apply st_ok_gets|]. intros curr.
  apply st_ok_bind; [apply add_from_anims_step|]. intros _.
  apply st_ok_bind; [apply st_ok_for; intros x _; apply setup_scene_step|]. intros _.
  apply st_ok_bind; [apply st_ok_modify|]. intros _.
  apply st_ok_for. intros x _. apply finish_clean_step.
Qed.

#[export] Hint Resolve play_total : ok_db.
#[export] Hint Extern 1 (_ <> []) => discriminate : ok_db.

(** ** The members of a group, while other objects come and go *)

(** The animations that change an object's class and points. *)
Definition is_transform (a : anim) : bool := match a with Transform _ _ => true | _ => false end.

Lemma no_transform_elem anims x :
  forallb (fun a => negb (is_transform a)) anims = true -> x ∈ anims -> is_transform x = false.
Proof.
  intros H Hx. apply forallb_forall with (x := x) in H; [|by apply list_elem_of_In].
  by apply negb_true_iff.
Qed.

Section Members.
Context (g : nat) (c : list nat).

(** [g] has been created, is a [VGroup] and its members are [c].  A
    [VGroup] has no points of its own, so manim's [group[k]] indexes its
    sub-objects: this is the case [getitem] models. *)
Definition members_are (s : scene) : Prop :=
  children (sc_store s) g = c /\ (g < sc_next s)%nat /\
  m_shape <$> sc_store s !! g = Some SGroup.

Lemma members_modify f :
  (forall s, sc_store (f s) = sc_store s /\ sc_next (f s) = sc_next s) ->
  st_preserves members_are (@st_modify scene exn f).
Proof.
  intros Hf s Hs. unfold st_exec, st_modify, members_are in *; cbn [snd].
  destruct (Hf s) as [-> ->]. exact Hs.
Qed.

Lemma members_new_mob m : st_preserves members_are (new_mob m).
Proof.
  intros s (Hc & Hg & Hk). unfold members_are, children, st_exec, new_mob in *.
  cbn [snd sc_store sc_next]. rewrite !lookup_insert_ne by lia. split_and!; [exact Hc | lia | exact Hk].
Qed.

Lemma members_Text M t col : st_preserves members_are (Text M t col).
Proof. apply members_new_mob. Qed.

Lemma members_store_map F f :
  (forall m, m_subs (f m) = m_subs m /\ (m_shape m = SGroup -> m_shape (f m) = SGroup)) ->
  st_preserves members_are
    (@st_modify scene exn (fun s => set_store (store_map_on (F s) f (sc_store s)) s)).
Proof.
  intros Hf s (Hc & Hg & Hk). split_and!; simpl; [|done|].
  - rewrite store_map_on_children; [done|]. intros m. apply Hf.
  - rewrite store_map_on_lookup. case_bool_decide; [|done].
    destruct (sc_store s !! g) as [m|]; simplify_eq/=. f_equal. by apply Hf.
Qed.

Lemma members_shift i v : st_preserves members_are (shift i v).
Proof. apply members_store_map. intros m. split; [done|]. simpl. by intros ->. Qed.
Lemma members_set_stroke i col w o : st_preserves members_are (set_stroke i col w o).
Proof. apply members_store_map. done. Qed.

(** [Transform(i, j)] on another object than [g]. *)
Lemma members_become i j : i <> g -> st_preserves members_are (become i j).
Proof.
  intros Hi s (Hc & Hg & Hk). unfold become, st_exec; simpl.
  destruct (sc_store s !! i); [|done]. destruct (sc_store s !! j); [|done].
  unfold members_are, children, set_store in *. cbn [sc_store sc_next].
  rewrite !lookup_insert_ne by congruence. done.
Qed.

Lemma members_add ms : st_preserves members_are (add ms).
Proof. apply members_modify. done. Qed.
Lemma members_remove ms : st_preserves members_are (remove ms).
Proof. apply members_modify. done. Qed.
Lemma members_advance t : st_preserves members_are (@st_modify scene exn (advance t)).
Proof. apply members_modify. done. Qed.
Lemma members_wait t : st_preserves members_are (wait t).
Proof. apply members_advance. Qed.
End Members.

Create HintDb members_db discriminated.
#[export] Hint Resolve st_preserves_ret st_preserves_gets members_Text members_shift
  members_set_stroke members_add members_remove members_advance members_wait
  : members_db.

(** Proves [st_preserves (members_are g c) m] by the structure of [m]. *)
Ltac members_auto :=
  repeat first
    [ solve [eauto with members_db]
    | apply st_preserves_bind; [| intros ?]
    | apply st_preserves_for; intros ??
    | match goal with |- st_preserves _ (if ?b then _ else _) => destruct b end
    | match goal with |- st_preserves _ (match ?x with _ => _ end) => destruct x end ].

Section MembersOps.
Context (g : nat) (c : list nat).

Lemma members_move_to i p : st_preserves (members_are g c) (move_to i p).
Proof. unfold move_to. members_auto. Qed.
Lemma members_to_edge i d b : st_preserves (members_are g c) (to_edge i d b).
Proof. unfold to_edge. members_auto. Qed.
Lemma members_next_to i j d b : st_preserves (members_are g c) (next_to i j d b).
Proof. unfold next_to. members_auto. Qed.
Lemma members_remove_where p : st_preserves (members_are g c) (remove_where p).
Proof. unfold remove_where. members_auto. Qed.

Lemma members_add_from_anims curr anims : st_preserves (members_are g c) (add_from_anims curr anims).
Proof.
  revert curr. induction anims as [|a anims IH]; intros curr; simpl; [members_auto|].
  destruct (_ || _); [apply IH|]. members_auto.
Qed.

Lemma members_anim_finish a : is_transform a = false -> st_preserves (members_are g c) (anim_finish a).
Proof.
  intros Ha. destruct a; simpl in *; try discriminate; unfold get_end; members_auto;
    apply members_move_to.
Qed.
Lemma members_clean_up a : st_preserves (members_are g c) (clean_up a).
Proof. unfold clean_up. members_auto. Qed.

(** [Scene.play] without a [Transform] keeps a group and its members. *)
Lemma members_play anims rt :
  forallb (fun a => negb (is_transform a)) anims = true ->
  st_preserves (members_are g c) (play anims rt).
Proof.
  intros Hna. pose proof (fun x => no_transform_elem _ x Hna) as Hall.
  unfold play. destruct anims as [|a0 anims]; [apply st_preserves_raise|].
  members_auto;
    first [ apply members_add_from_anims | apply members_clean_up
          | apply members_anim_finish, Hall; set_solver ].
Qed.
End MembersOps.

Lemma members_Arrow g c st en col w : st_preserves (members_are g c) (Arrow st en col w).
Proof. unfold Arrow. case_match. apply members_new_mob. Qed.
Lemma members_Dot g c col : st_preserves (members_are g c) (Dot col).
Proof. apply members_new_mob. Qed.
Lemma members_remove_where_nonempty g c p :
  st_preserves (members_are g c) (remove_where_nonempty p).
Proof. unfold remove_where_nonempty. members_auto. Qed.

#[export] Hint Resolve members_move_to members_to_edge members_next_to members_remove_where
  members_remove_where_nonempty members_play members_Arrow members_Dot : members_db.
#[export] Hint Extern 1 (forallb _ _ = true) => reflexivity : members_db.

(** ** Indexing a group that is too short *)

Lemma getitem_raises g c k :
  (length c <= k)%nat -> st_raises (members_are g c) IndexError (getitem g k).
Proof.
  intros Hk s (Hc & _). unfold getitem, st_eval. rewrite Hc, lookup_ge_None_2 by done. done.
Qed.

(** Follows a stage to the lookup that raises: every earlier step
    returns ([ok_db]) and keeps the members ([members_db]). *)
Ltac raises_auto :=
  repeat first
    [ apply st_raises_here; apply getitem_raises; lia
    | apply st_raises_after; [solve [ok_auto] | solve [members_auto] | intros ?] ].

Section Stages.
Context (M : metrics) (alu ax_reg bx_reg dx_reg : nat) (c : list nat) (s : scene).

(** C26: [alu[2]], the gear, raises [IndexError] in both execution
    stages when the ALU handed to them is a [VGroup] of fewer than three
    parts: from any scene in which it exists, the stage returns through
    its title and its first animations, none a [Transform], which leave
    the group and its parts as they are, and raises at the lookup. *)
Theorem gear_lookup_error :
  members_are alu c s -> (length c <= 2)%nat ->
  st_eval (execute_multiplication_detailed M alu ax_reg bx_reg) s = Err IndexError /\
  st_eval (execute_multiplication M alu ax_reg bx_reg) s = Err IndexError.
Proof.
  intros Hm Hlen.
  split; [apply (fun H : st_raises _ IndexError _ => H s Hm)..].
  - unfold execute_multiplication_detailed. raises_auto.
  - unfold execute_multiplication. raises_auto.
Qed.

(** C27: [ax_reg[2]], the value text of AX, raises [IndexError] in both
    write-back stages when the AX register handed to them is a [VGroup]
    of fewer than three parts: the stage draws its title, the two result
    paths and the moving dots, and raises before it transforms any
    value. *)
Theorem register_value_lookup_error :
  members_are ax_reg c s -> (length c <= 2)%nat ->
  st_eval (write_back_results_detailed M alu ax_reg dx_reg) s = Err IndexError /\
  st_eval (write_back_results M alu ax_reg dx_reg) s = Err IndexError.
Proof.
  intros Hm Hlen.
  split; [apply (fun H : st_raises _ IndexError _ => H s Hm)..].
  - unfold write_back_results_detailed, write_back_results. raises_auto.
  - unfold write_back_results. raises_auto.
Qed.
End Stages.
