(* ===== verification/Examples.v ===== *)
(** * Concrete instances of the general theorems

    A small scene, two rectangles in a group drawn as one object, shows
    how manim's [remove] splits a drawn group, and serves as the concrete
    input at which the theorems with hypotheses ([add_spec], [remove_spec], [remove_where_filter],
    [play_clock], [vg_add_spec], [parse_hex16]) are applied; handed to
    the execution stages as the ALU or as the AX register, its two-member
    group is too short ([gear_lookup_error],
    [register_value_lookup_error]). *)

From S2P Require Import Prelude Geometry Mobject Scene SetupStages ExecStages Errors MulArith.
From Stdlib Require Import ZArith.
Import Hex.

Local Open Scope sm_scope.

(** Rectangles 0 and 1 in the group 2, which is drawn. *)
Definition group_scene : scene :=
  st_exec (a <- Rectangle 1 1 "#FFFFFF" 0 ;;
           b <- Rectangle 1 1 "#FFFFFF" 0 ;;
           g <- VGroup [a; b] ;;
           add [g]) empty_scene.

(** Removing a member of a drawn group splits the group: the group
    is no longer drawn and its other member is drawn on its own. *)
Example remove_splits_group :
  sc_mobjects group_scene = [2%nat] /\
  sc_mobjects (st_exec (remove [0%nat]) group_scene) = [1%nat].
Proof. vm_compute. split; reflexivity. Qed.

Lemma remove_spec_witness :
  scene_ok group_scene /\
  (forall m, m ∈ [0%nat] -> m ∉ family_members (st_exec (remove [0%nat]) group_scene)) /\
  (forall x, x ∈ sc_mobjects group_scene ->
             family (sc_store group_scene) x ## list_to_set [0%nat] ->
             x ∈ sc_mobjects (st_exec (remove [0%nat]) group_scene)).
Proof.
  assert (H : scene_ok group_scene) by decide_vm.
  split; [exact H | exact (remove_spec [0%nat] group_scene H)].
Defined.

Lemma add_spec_witness :
  scene_ok group_scene /\ disjoint_fams (sc_store group_scene) [0%nat] /\
  (scene_ok (st_exec (add [0%nat]) group_scene) /\
   (forall m, m ∈ [0%nat] -> m ∈ sc_mobjects (st_exec (add [0%nat]) group_scene)) /\
   (forall x, x ∈ sc_mobjects group_scene ->
              family (sc_store group_scene) x ## ⋃ (family (sc_store group_scene) <$> [0%nat]) ->
              x ∈ sc_mobjects (st_exec (add [0%nat]) group_scene))).
Proof.
  assert (H : scene_ok group_scene) by decide_vm.
  assert (Hd : disjoint_fams (sc_store group_scene) [0%nat]) by decide_vm.
  split; [exact H | split; [exact Hd | exact (add_spec [0%nat] group_scene H Hd)]].
Defined.

Lemma play_ok_witness :
  scene_ok group_scene /\ scene_ok (st_exec (play [FadeOut 0%nat] (Some 1)) group_scene).
Proof.
  assert (H : scene_ok group_scene) by decide_vm.
  split; [exact H | exact (play_ok [FadeOut 0%nat] (Some 1) group_scene H)].
Defined.

Lemma play_clock_witness :
  [FadeIn 0%nat; Rotate 1%nat 1 (Some 3)] <> [] /\
  st_eval (play [FadeIn 0%nat; Rotate 1%nat 1 (Some 3)] None) group_scene = Ok tt /\
  sc_time (st_exec (play [FadeIn 0%nat; Rotate 1%nat 1 (Some 3)] None) group_scene) =
  Qred (sc_time group_scene + play_duration None [FadeIn 0%nat; Rotate 1%nat 1 (Some 3)]).
Proof.
  assert (H : [FadeIn 0%nat; Rotate 1%nat 1 (Some 3)] <> []) by discriminate.
  split; [exact H | exact (play_clock _ None group_scene H)].
Defined.

Definition group_of_scene : mob := default (Mob SGroup [] None (Style "#000000" 0 "#000000" 0 0))
                                            (sc_store group_scene !! 2%nat).

Lemma vg_add_spec_witness :
  sc_store group_scene !! 2%nat = Some group_of_scene /\ NoDup (m_subs group_of_scene) /\
  ((2%nat ∈ [0%nat] -> vg_add 2 [0%nat] group_scene = (Err ValueError, group_scene)) /\
   (2%nat ∉ [0%nat] ->
    st_eval (vg_add 2 [0%nat]) group_scene = Ok tt /\
    NoDup (children (sc_store (st_exec (vg_add 2 [0%nat]) group_scene)) 2) /\
    forall x, x ∈ children (sc_store (st_exec (vg_add 2 [0%nat]) group_scene)) 2 <->
              x ∈ m_subs group_of_scene \/ x ∈ [0%nat])).
Proof.
  assert (H1 : sc_store group_scene !! 2%nat = Some group_of_scene) by reflexivity.
  assert (H2 : NoDup (m_subs group_of_scene)) by decide_vm.
  split; [exact H1 | split; [exact H2 | exact (vg_add_spec 2 [0%nat] group_scene _ H1 H2)]].
Defined.

Lemma parse_hex16_witness : (0 <= 65535 < 2 ^ 16)%Z /\ parse_hex (hex16 65535) = Some 65535%Z.
Proof.
  assert (H : (0 <= 65535 < 2 ^ 16)%Z) by lia.
  split; [exact H | exact (parse_hex16 65535 H)].
Defined.

Lemma remove_where_filter_witness :
  scene_ok group_scene /\
  (sc_mobjects (st_exec (remove_where (fun _ i => Nat.eqb i 2)) group_scene) =
     filter (fun i => Nat.eqb i 2 = false) (sc_mobjects group_scene) /\
   sc_mobjects (st_exec (remove_where_nonempty (fun _ i => Nat.eqb i 2)) group_scene) =
     filter (fun i => Nat.eqb i 2 = false) (sc_mobjects group_scene)).
Proof.
  assert (H : scene_ok group_scene) by decide_vm.
  split; [exact H | exact (remove_where_filter (fun _ i => Nat.eqb i 2) group_scene H)].
Defined.

(** A renderer that gives every text one unit of width and height. *)
Definition unit_metrics : metrics := {| text_width := fun _ => 1; text_height := fun _ => 1 |}.

Lemma gear_lookup_error_witness :
  members_are 2 [0%nat; 1%nat] group_scene /\ (length [0%nat; 1%nat] <= 2)%nat /\
  (st_eval (execute_multiplication_detailed unit_metrics 2 0 1) group_scene = Err IndexError /\
   st_eval (execute_multiplication unit_metrics 2 0 1) group_scene = Err IndexError).
Proof.
  assert (H1 : members_are 2 [0%nat; 1%nat] group_scene) by (split_and!; [reflexivity | decide_vm | vm_compute; reflexivity]).
  assert (H2 : (length [0%nat; 1%nat] <= 2)%nat) by (simpl; lia).
  exact (conj H1 (conj H2 (gear_lookup_error unit_metrics 2 0 1 [0%nat; 1%nat] group_scene H1 H2))).
Defined.

Lemma register_value_lookup_error_witness :
  members_are 2 [0%nat; 1%nat] group_scene /\ (length [0%nat; 1%nat] <= 2)%nat /\
  (st_eval (write_back_results_detailed unit_metrics 0 2 1) group_scene = Err IndexError /\
   st_eval (write_back_results unit_metrics 0 2 1) group_scene = Err IndexError).
Proof.
  assert (H1 : members_are 2 [0%nat; 1%nat] group_scene) by (split_and!; [reflexivity | decide_vm | vm_compute; reflexivity]).
  assert (H2 : (length [0%nat; 1%nat] <= 2)%nat) by (simpl; lia).
  exact (conj H1 (conj H2 (register_value_lookup_error unit_metrics 0 2 1 [0%nat; 1%nat] group_scene H1 H2))).
Defined.
