(* ===== verification/StagePlayer.v ===== *)
(** * The StagePlayer of the specification

    The specification (sections 3, 4.1, 7 and 8 of [spec.md]) describes
    the design the source should follow: a player runs named stages in
    order; each stage checks that the entities it requires were carried to
    it ([CarryMismatch] otherwise), builds its entities ([BuildFailure]
    aborts the run), shows them, and at its exit keeps exactly the
    entities it declares carried.  This file is that abstract
    specification: [run_stage] and [run] in the error-state monad of
    [Prelude], with an event log of the build, enter and exit steps, and
    its contract: at each exit exactly the carried entities stay, carried
    entities keep their identity, a missing carry is detected before the
    stage builds anything, and the run stops at the first failure.  The
    source has no player: its stages are methods called in sequence by
    [construct] ([Construct.construct_with]), so this file specifies the
    design and is not a model of code. *)

From S2P Require Import Prelude.

Local Open Scope sm_scope.

Module StagePlayer.

Record stage := Stage {
  sname : string;
  requires : list string;
  produces : list string;
  carries : list string;
  build_ok : bool;
}.

Inductive perr :=
| CarryMismatch (stage missing : string)
| BuildFailure (stage : string).

Inductive event :=
| EvBuild (stage : string)
| EvEnter (stage : string)
| EvExit (stage : string).

(** Entities are identified by an identity drawn from [next_id]; the
    carried and visible entities are maps from names to identities. *)
Record pstate := PState {
  carried : gmap string nat;
  visible : gmap string nat;
  next_id : nat;
  log : list event;
}.

Definition PM := st_m pstate perr.

(** Fresh identities for the produced names. *)
Fixpoint fresh (names : list string) (n : nat) : gmap string nat * nat :=
  match names with
  | [] => (∅, n)
  | x :: r => let '(m, n') := fresh r (S n) in (<[x := n]> m, n')
  end.

(** One stage: check the carried inputs, build, enter, exit. *)
Definition run_stage (st : stage) : PM unit :=
  s <- st_get ;;
  match list_find (fun x => carried s !! x = None) (requires st) with
  | Some (_, x) => st_raise (CarryMismatch (sname st) x)
  | None =>
      if negb (build_ok st) then st_raise (BuildFailure (sname st))
      else
        let '(built, n) := fresh (produces st) (next_id s) in
        st_modify (fun s => PState (carried s) (visible s) n (log s ++ [EvBuild (sname st)])) ;;
        st_modify (fun s => PState (carried s) (built ∪ carried s) (next_id s)
                                   (log s ++ [EvEnter (sname st)])) ;;
        st_modify (fun s =>
          let kept := filter (fun kv => kv.1 ∈ carries st) (visible s) in
          PState kept kept (next_id s) (log s ++ [EvExit (sname st)]))
  end.

Definition run (stages : list stage) : PM unit := st_for stages run_stage.

Definition init : pstate := PState ∅ ∅ 0 [].

(** ** The contract *)

Lemma fresh_lookup_None l n x : (fresh l n).1 !! x = None <-> x ∉ l.
Proof.
  revert n. induction l as [|y l IH]; intros n; simpl; [set_solver|].
  specialize (IH (S n)). destruct (fresh l (S n)) as [m n'] eqn:E. simpl in *.
  rewrite elem_of_cons. destruct (decide (x = y)) as [->|Hne].
  - rewrite lookup_insert_eq. split; [discriminate | intros H; exfalso; by apply H; left].
  - rewrite lookup_insert_ne by congruence. rewrite IH. naive_solver.
Qed.

(** What a stage that passes its checks does. *)
Lemma run_stage_ok st s :
  list_find (fun x => carried s !! x = None) (requires st) = None -> build_ok st = true ->
  let kept := filter (fun kv => kv.1 ∈ carries st) ((fresh (produces st) (next_id s)).1 ∪ carried s) in
  run_stage st s =
    (Ok tt, PState kept kept (fresh (produces st) (next_id s)).2
                   (log s ++ [EvBuild (sname st); EvEnter (sname st); EvExit (sname st)])).
Proof.
  intros Hf Hb. unfold run_stage, st_bind, st_get, st_modify. simpl. rewrite Hf, Hb. simpl.
  destruct (fresh (produces st) (next_id s)) as [built n]. simpl. by rewrite <- !app_assoc.
Qed.

(** A stage that fails leaves the state, and so the log, as it was. *)
Lemma run_stage_err st s e s' : run_stage st s = (Err e, s') -> s' = s.
Proof.
  unfold run_stage, st_bind, st_get. simpl.
  destruct (list_find _ _) as [[? ?]|]; [by intros [= _ <-]|].
  destruct (build_ok st); simpl; [|by intros [= _ <-]].
  destruct (fresh _ _). done.
Qed.

Lemma run_app l1 l2 s :
  run (l1 ++ l2) s = st_bind (run l1) (fun _ => run l2) s.
Proof.
  revert s. induction l1 as [|st l1 IH]; intros s; [reflexivity|].
  unfold run in *. simpl. rewrite st_bind_assoc.
  specialize (fun s' => IH s'). unfold st_bind in *.
  destruct (run_stage st s) as [[[]|e] s']; [apply IH | done].
Qed.

(** The exit's restriction to the carried names. *)
Lemma lookup_filter_key (C : list string) (m : gmap string nat) x :
  filter (fun kv => kv.1 ∈ C) m !! x = if decide (x ∈ C) then m !! x else None.
Proof.
  destruct (decide (x ∈ C)).
  - destruct (m !! x) eqn:E.
    + by apply map_lookup_filter_Some.
    + apply map_lookup_filter_None. by left.
  - apply map_lookup_filter_None. right. by intros ? _.
Qed.

Lemma run_stage_eval_ok st s :
  st_eval (run_stage st) s = Ok tt ->
  list_find (fun x => carried s !! x = None) (requires st) = None /\ build_ok st = true.
Proof.
  unfold st_eval, run_stage, st_bind, st_get. simpl.
  destruct (list_find _ _) as [[? ?]|]; [discriminate|].
  destruct (build_ok st); [|discriminate]. done.
Qed.

(** No leakage: after a stage's exit the visible entities are exactly
    the carried ones, and an entity is carried iff the stage declares it
    carried and it was built by the stage or carried to it. *)
Theorem stage_exit_carried st s :
  st_eval (run_stage st) s = Ok tt ->
  visible (st_exec (run_stage st) s) = carried (st_exec (run_stage st) s) /\
  (forall x, carried (st_exec (run_stage st) s) !! x <> None <->
             x ∈ carries st /\ (x ∈ produces st \/ carried s !! x <> None)).
Proof.
  intros H. destruct (run_stage_eval_ok st s H) as [Hf Hb].
  unfold st_exec. rewrite run_stage_ok by done. simpl. split; [done|]. intros x.
  assert (Hfx : x ∈ produces st <-> (fresh (produces st) (next_id s)).1 !! x <> None).
  { rewrite fresh_lookup_None. destruct (decide (x ∈ produces st)); tauto. }
  rewrite Hfx, lookup_filter_key, lookup_union.
  destruct (decide (x ∈ carries st)), ((fresh (produces st) (next_id s)).1 !! x),
    (carried s !! x); simpl; naive_solver.
Qed.

(** A carried entity reaches the stage that keeps it as the same
    entity, not a rebuilt copy. *)
Theorem carried_identity st s x e :
  st_eval (run_stage st) s = Ok tt -> carried s !! x = Some e -> x ∈ carries st ->
  x ∉ produces st -> carried (st_exec (run_stage st) s) !! x = Some e.
Proof.
  intros H Hx Hc Hp. destruct (run_stage_eval_ok st s H) as [Hf Hb].
  unfold st_exec. rewrite run_stage_ok by done. simpl.
  rewrite lookup_filter_key, lookup_union, (proj2 (fresh_lookup_None _ _ _) Hp), Hx.
  by rewrite decide_True.
Qed.

(** A stage that requires an entity no earlier stage carried to it
    fails with [CarryMismatch] before building anything: the state and
    the log are unchanged. *)
Theorem carry_mismatch st s x :
  x ∈ requires st -> carried s !! x = None ->
  exists y, y ∈ requires st /\ carried s !! y = None /\
            run_stage st s = (Err (CarryMismatch (sname st) y), s).
Proof.
  intros Hx Hn.
  destruct (list_find (fun x => carried s !! x = None) (requires st)) as [[i y]|] eqn:E.
  - pose proof E as E'. apply list_find_Some in E' as (Hi & Hy & _). exists y. split_and!.
    + by eapply list_elem_of_lookup_2.
    + done.
    + unfold run_stage, st_bind, st_get. simpl. by rewrite E.
  - apply list_find_None in E. rewrite Forall_forall in E. by destruct (E x Hx).
Qed.

(** Fail fast: when stage [k] fails, the run ends there with its
    error and the state before stage [k]; no later stage runs. *)
Theorem fail_fast pre st post s e :
  st_eval (run pre) s = Ok tt -> st_eval (run_stage st) (st_exec (run pre) s) = Err e ->
  run (pre ++ st :: post) s = (Err e, st_exec (run pre) s).
Proof.
  intros Hpre Hst. rewrite run_app. unfold st_eval, st_exec in *.
  unfold st_bind. destruct (run pre s) as [[[]|e'] s1]; simpl in *; [|discriminate].
  unfold run. simpl. unfold st_bind.
  destruct (run_stage st s1) as [[[]|e'] s2] eqn:E; simpl in Hst; [discriminate|].
  injection Hst as ->. apply run_stage_err in E. by subst.
Qed.

(** The end-to-end scenario of section 8 of the specification: Setup
    carries [ax] and [bx], Compute removes them at its exit and carries
    only [result], which Summary receives as the entity Compute built. *)
Example spec_scenario :
  let stages := [Stage "Setup" [] ["ax"; "bx"] ["ax"; "bx"] true;
                 Stage "Compute" ["ax"; "bx"] ["result"] ["result"] true;
                 Stage "Summary" ["result"] [] [] true] in
  st_eval (run stages) init = Ok tt /\
  dom (visible (st_exec (run (take 1 stages)) init)) = list_to_set ["ax"; "bx"] /\
  dom (visible (st_exec (run (take 2 stages)) init)) = list_to_set ["result"] /\
  carried (st_exec (run (take 2 stages)) init) !! "result" = Some 2%nat.
Proof. cbv zeta. split_and!; [vm_compute; reflexivity | decide_vm | decide_vm | vm_compute; reflexivity]. Qed.

(** The CarryMismatch example of section 8: B requires an entity nothing
    produced; the run stops before B's build, the log ending with A's exit. *)
Example spec_mismatch :
  run [Stage "A" [] [] [] true; Stage "B" ["ax_register"] [] [] true] init =
  (Err (CarryMismatch "B" "ax_register"), PState ∅ ∅ 0 [EvBuild "A"; EvEnter "A"; EvExit "A"]).
Proof. vm_compute. reflexivity. Qed.

End StagePlayer.

