(* ===== verification/Skeleton.v ===== *)
(** * The script does not depend on the text renderer

    The only input of [construct] besides its literals is the font
    renderer [M]: it decides the extent of every text, hence where every
    object lands, and through the clean-ups that select objects by their
    position ([obj.get_center()[0] > 2], ...) which objects are drawn.
    What it cannot change is the object graph: the identities created, the
    class of each object, the sub-objects of every group, and whether the
    script raises, and the clock.  This file states that as a relation
    between two runs, [skel_rel R m1 m2]: from states with the same
    skeleton ([skel]: the class and sub-object list of every object of the
    store, the next identity and the clock) both computations end with the
    same skeleton, and either both return, with results related by [R],
    or both raise the same exception.  The rules of the relation follow the structure of the code
    ([skel_rel_bind], [skel_rel_for], ...); positioning and drawing keep
    the skeleton ([neutral]); creating, grouping, copying, indexing,
    [Transform] and the clock change or read it the same way on both
    sides.
    Every stage satisfies the relation for any two renderers, and so does
    [construct]: since the reference run returns, [construct] returns for
    every renderer, with the object graph of the reference run
    ([construct_returns]), and every stage ends at the time it ends in the
    reference run ([timeline_any_renderer]). *)

From S2P Require Import Prelude Geometry Mobject Scene SetupStages ExecStages FinalStages Construct.

Local Open Scope Q_scope.
Local Open Scope sm_scope.

(** ** Skeletons and the relation between two runs *)

(** The class of an object, as [isinstance] sees it. *)
Inductive kind := KText | KRect | KArrow | KDot | KGroup.

#[global] Instance kind_eq_dec : EqDecision kind.
Proof. solve_decision. Defined.

Definition shape_kind (sh : shape) : kind :=
  match sh with
  | SText _ => KText | SRect _ _ => KRect | SArrow _ _ => KArrow | SDot => KDot | SGroup => KGroup
  end.

(** What the renderer cannot change about an object: its class and its
    sub-objects. *)
Definition node (m : mob) : kind * list nat := (shape_kind (m_shape m), m_subs m).

(** What the renderer cannot change about a scene: the nodes of the
    store, the next identity and the clock. *)
Record skeleton := Skel {
  sk_nodes : gmap nat (kind * list nat);
  sk_next : nat;
  sk_time : Q;
}.

Definition skel (s : scene) : skeleton := Skel (node <$> sc_store s) (sc_next s) (sc_time s).

(** Results that need not be related (positions, lists chosen by position). *)
Definition any {A B} (_ : A) (_ : B) : Prop := True.

Definition skel_rel {A B} (R : A -> B -> Prop) (m1 : SM A) (m2 : SM B) : Prop :=
  forall s1 s2, skel s1 = skel s2 ->
    skel (st_exec m1 s1) = skel (st_exec m2 s2) /\
    match st_eval m1 s1, st_eval m2 s2 with
    | Ok a1, Ok a2 => R a1 a2
    | Err e1, Err e2 => e1 = e2
    | _, _ => False
    end.

(** A step that returns and keeps the skeleton: positioning, styling,
    drawing, the clock. *)
Definition neutral {A} (m : SM A) : Prop := st_ok m /\ st_keeps skel m.

Section Rules.
Context {A B C D : Type}.

Lemma skel_rel_ret (R : A -> B -> Prop) a b : R a b -> skel_rel R (st_ret a) (st_ret b).
Proof. intros HR s1 s2 Hs. by split. Qed.

Lemma skel_rel_bind (RA : A -> B -> Prop) (RB : C -> D -> Prop) m1 m2 k1 k2 :
  skel_rel RA m1 m2 -> (forall a b, RA a b -> skel_rel RB (k1 a) (k2 b)) ->
  skel_rel RB (st_bind m1 k1) (st_bind m2 k2).
Proof.
  intros Hm Hk s1 s2 Hs. destruct (Hm s1 s2 Hs) as [Hs' Hr].
  unfold st_exec, st_eval, st_bind in *.
  destruct (m1 s1) as [[a|e1] s1'], (m2 s2) as [[b|e2] s2']; simpl in *; try done.
  by apply Hk.
Qed.

Lemma skel_rel_mono (R R' : A -> B -> Prop) m1 m2 :
  (forall a b, R a b -> R' a b) -> skel_rel R m1 m2 -> skel_rel R' m1 m2.
Proof.
  intros HR Hm s1 s2 Hs. destruct (Hm s1 s2 Hs) as [? Hr]. split; [done|].
  destruct (st_eval m1 s1), (st_eval m2 s2); auto.
Qed.

Lemma skel_rel_neutral (m1 : SM A) (m2 : SM B) : neutral m1 -> neutral m2 -> skel_rel any m1 m2.
Proof.
  intros [Ok1 K1] [Ok2 K2] s1 s2 Hs.
  destruct (Ok1 s1) as [a ->], (Ok2 s2) as [b ->]. split; [|done].
  by rewrite (K1 (skel s1) s1 eq_refl), (K2 (skel s2) s2 eq_refl).
Qed.
End Rules.

Lemma skel_rel_for {X} (l : list X) (b1 b2 : X -> SM unit) :
  (forall x, skel_rel any (b1 x) (b2 x)) -> skel_rel any (st_for l b1) (st_for l b2).
Proof.
  intros Hb. induction l as [|x l IH]; simpl; [by apply skel_rel_ret|].
  apply (skel_rel_bind any); [apply Hb | intros; apply IH].
Qed.

(** The same state function on both sides, when it reads only the
    skeleton. *)
Lemma skel_rel_step {X} (m : SM X) :
  (forall s1 s2, skel s1 = skel s2 ->
     skel (st_exec m s1) = skel (st_exec m s2) /\ st_eval m s1 = st_eval m s2) ->
  skel_rel eq m m.
Proof.
  intros Hm s1 s2 Hs. destruct (Hm s1 s2 Hs) as [? ->]. split; [done|].
  by destruct (st_eval m s2).
Qed.

(** ** Reading the skeleton *)

Lemma skel_lookup s1 s2 i :
  skel s1 = skel s2 -> node <$> sc_store s1 !! i = node <$> sc_store s2 !! i.
Proof. intros [= H _ _]. by rewrite <- !lookup_fmap, H. Qed.

Lemma skel_children s1 s2 i :
  skel s1 = skel s2 -> children (sc_store s1) i = children (sc_store s2) i.
Proof.
  intros Hs. pose proof (skel_lookup s1 s2 i Hs) as H. unfold children.
  by destruct (sc_store s1 !! i), (sc_store s2 !! i); simplify_eq/=.
Qed.

Lemma skel_insert s i m :
  sc_store s !! i = Some m -> forall m', node m' = node m ->
  node <$> <[i := m']> (sc_store s) = node <$> sc_store s.
Proof.
  intros Hi m' Hm'. rewrite fmap_insert, Hm'. apply insert_id.
  by rewrite lookup_fmap, Hi.
Qed.

Lemma skel_store_map_on F f st :
  (forall m, node (f m) = node m) -> node <$> store_map_on F f st = node <$> st.
Proof.
  intros Hf. apply map_eq. intros j. rewrite !lookup_fmap, store_map_on_lookup.
  case_bool_decide; [|done]. destruct (st !! j); simpl; [by rewrite Hf|done].
Qed.

(** ** Steps that keep the skeleton *)

Lemma neutral_ret {A} (a : A) : neutral (st_ret a).
Proof. split; [apply st_ok_ret | apply st_keeps_ret]. Qed.

Lemma neutral_gets {A} (f : scene -> A) : neutral (st_gets f).
Proof. split; [apply st_ok_gets | apply st_keeps_gets]. Qed.

Lemma neutral_modify f : (forall s, skel (f s) = skel s) -> neutral (st_modify f).
Proof. intros Hf. split; [apply st_ok_modify | by apply st_keeps_modify]. Qed.

Lemma neutral_bind {A B} (m : SM A) (k : A -> SM B) :
  neutral m -> (forall a, neutral (k a)) -> neutral (st_bind m k).
Proof.
  intros [Hm Km] Hk. split; [apply st_ok_bind; [done | intros a; apply Hk]|].
  apply st_keeps_bind; [done | intros a; apply Hk].
Qed.

Lemma neutral_for {X} (l : list X) (b : X -> SM unit) :
  (forall x, neutral (b x)) -> neutral (st_for l b).
Proof.
  intros Hb. split; [apply st_ok_for; intros x _; apply Hb | apply st_keeps_for; apply Hb].
Qed.

Create HintDb skel_db discriminated.
#[export] Hint Constants Opaque : skel_db.
#[export] Hint Resolve neutral_ret neutral_gets : skel_db.
#[export] Hint Extern 1 (_ <> []) => discriminate : skel_db.

(** Proves [neutral m] by the structure of [m], from the lemmas of
    [skel_db]. *)
Ltac neutral_auto :=
  repeat first
    [ solve [eauto with skel_db]
    | apply neutral_bind; [| intros ?]
    | apply neutral_for; intros ?
    | match goal with |- neutral (match ?x with _ => _ end) => destruct x end
    | match goal with |- neutral (if ?b then _ else _) => destruct b end ].

(** A state update that leaves the store and the next identity. *)
Ltac neutral_modify_auto :=
  apply neutral_modify; intros ?; unfold skel; simpl; try reflexivity.

Lemma shift_neutral i v : neutral (shift i v).
Proof.
  neutral_modify_auto. f_equal. apply skel_store_map_on.
  intros [[] ???]; reflexivity.
Qed.

Lemma set_stroke_neutral i c w o : neutral (set_stroke i c w o).
Proof. neutral_modify_auto. f_equal. by apply skel_store_map_on. Qed.


Lemma add_neutral ms : neutral (add ms).
Proof. neutral_modify_auto. Qed.
Lemma remove_neutral ms : neutral (remove ms).
Proof. neutral_modify_auto. Qed.
Lemma clear_neutral : neutral clear.
Proof. neutral_modify_auto. Qed.
Lemma set_background_neutral c : neutral (set_background c).
Proof. neutral_modify_auto. Qed.

#[export] Hint Resolve shift_neutral set_stroke_neutral add_neutral
  remove_neutral clear_neutral set_background_neutral : skel_db.

Lemma move_to_neutral i p : neutral (move_to i p).
Proof. unfold move_to. neutral_auto. Qed.
Lemma to_edge_neutral i d b : neutral (to_edge i d b).
Proof. unfold to_edge. neutral_auto. Qed.
Lemma next_to_neutral i j d b : neutral (next_to i j d b).
Proof. unfold next_to. neutral_auto. Qed.
Lemma get_critical_point_neutral i d : neutral (get_critical_point i d).
Proof. apply neutral_gets. Qed.
Lemma get_start_neutral i : neutral (get_start i).
Proof. apply neutral_gets. Qed.
Lemma get_end_neutral i : neutral (get_end i).
Proof. apply neutral_gets. Qed.

Lemma get_center_neutral i : neutral (get_center i).
Proof. apply neutral_gets. Qed.
Lemma get_top_neutral i : neutral (get_top i).
Proof. apply neutral_gets. Qed.
Lemma get_bottom_neutral i : neutral (get_bottom i).
Proof. apply neutral_gets. Qed.
Lemma get_left_neutral i : neutral (get_left i).
Proof. apply neutral_gets. Qed.
Lemma get_right_neutral i : neutral (get_right i).
Proof. apply neutral_gets. Qed.

#[export] Hint Resolve move_to_neutral to_edge_neutral next_to_neutral
  get_critical_point_neutral get_start_neutral get_end_neutral get_center_neutral
  get_top_neutral get_bottom_neutral get_left_neutral get_right_neutral : skel_db.

Lemma remove_where_neutral p : neutral (remove_where p).
Proof. unfold remove_where. neutral_auto. Qed.
Lemma remove_where_nonempty_neutral p : neutral (remove_where_nonempty p).
Proof. unfold remove_where_nonempty. neutral_auto. Qed.
#[export] Hint Resolve remove_where_neutral remove_where_nonempty_neutral : skel_db.

(** ** Steps that build the object graph

    Creating an object, grouping, copying and indexing read and change
    the skeleton, the same way on both sides: their results are equal. *)

Lemma new_mob_skel m1 m2 : node m1 = node m2 -> skel_rel eq (new_mob m1) (new_mob m2).
Proof.
  intros Hm s1 s2 Hs. pose proof Hs as Hs'; injection Hs' as Hst Hn Ht. unfold skel; simpl.
  by rewrite !fmap_insert, Hst, Hn, Ht, Hm.
Qed.

Lemma Text_skel M1 M2 t1 t2 c1 c2 : skel_rel eq (Text M1 t1 c1) (Text M2 t2 c2).
Proof. by apply new_mob_skel. Qed.
Lemma Rectangle_skel w1 h1 c1 o1 w2 h2 c2 o2 :
  skel_rel eq (Rectangle w1 h1 c1 o1) (Rectangle w2 h2 c2 o2).
Proof. by apply new_mob_skel. Qed.
Lemma Arrow_skel s1 e1 c1 w1 s2 e2 c2 w2 : skel_rel eq (Arrow s1 e1 c1 w1) (Arrow s2 e2 c2 w2).
Proof. unfold Arrow. do 2 case_match. by apply new_mob_skel. Qed.
Lemma Dot_skel c1 c2 : skel_rel eq (Dot c1) (Dot c2).
Proof. by apply new_mob_skel. Qed.

Lemma vg_add_skel g l : skel_rel eq (vg_add g l) (vg_add g l).
Proof.
  apply skel_rel_step. intros s1 s2 Hs. unfold vg_add, st_exec, st_eval.
  destruct (mem_b g l); [done|].
  pose proof (skel_lookup s1 s2 g Hs) as Hg. pose proof Hs as Hs'; injection Hs' as Hst Hn Ht.
  destruct (sc_store s1 !! g) as [m1|], (sc_store s2 !! g) as [m2|]; simpl in Hg |- *;
    try discriminate; [|by split].
  injection Hg as Hk Hg. unfold skel, set_store; simpl. rewrite !fmap_insert, Hst, Hn, Ht.
  unfold node; simpl. by rewrite Hk, Hg.
Qed.

Lemma VGroup_skel l : skel_rel eq (VGroup l) (VGroup l).
Proof.
  unfold VGroup. apply (skel_rel_bind eq); [by apply new_mob_skel|]. intros g ? <-.
  apply (skel_rel_bind eq); [apply vg_add_skel|]. intros. by apply skel_rel_ret.
Qed.

Lemma copy_skel i : skel_rel eq (copy i) (copy i).
Proof.
  apply skel_rel_step. intros s1 s2 Hs. unfold copy, st_exec, st_eval.
  pose proof (skel_lookup s1 s2 i Hs) as Hi. pose proof Hs as Hs'; injection Hs' as Hst Hn Ht.
  destruct (sc_store s1 !! i), (sc_store s2 !! i); simpl in Hi |- *; try discriminate; [|by split].
  injection Hi as Hk _. unfold skel. simpl. rewrite !fmap_insert, Hst, Hn, Ht.
  unfold node; simpl. by rewrite Hk.
Qed.

Lemma getitem_skel g k : skel_rel eq (getitem g k) (getitem g k).
Proof.
  apply skel_rel_step. intros s1 s2 Hs. unfold getitem, st_exec, st_eval.
  rewrite (skel_children s1 s2 g Hs). by destruct (_ !! k).
Qed.

Lemma submobjects_skel g : skel_rel eq (submobjects g) (submobjects g).
Proof.
  apply skel_rel_step. intros s1 s2 Hs. split; [done|]. unfold st_eval; simpl.
  by rewrite (skel_children s1 s2 g Hs).
Qed.

(** The clock moves by the same durations on both sides. *)
Lemma advance_skel t : skel_rel eq (st_modify (advance t)) (st_modify (advance t)).
Proof.
  apply skel_rel_step. intros s1 s2 Hs. split; [|done].
  pose proof Hs as Hs'; injection Hs' as Hst Hn Ht. unfold skel; simpl. by rewrite Hst, Hn, Ht.
Qed.
Lemma wait_skel t : skel_rel eq (wait t) (wait t).
Proof. apply advance_skel. Qed.

#[export] Hint Resolve advance_skel wait_skel Text_skel Rectangle_skel Arrow_skel Dot_skel vg_add_skel VGroup_skel
  copy_skel getitem_skel submobjects_skel : skel_db.
#[export] Hint Extern 2 (skel_rel _ _ _) => apply skel_rel_neutral; neutral_auto : skel_db.

(** Relates two runs of the same code, step by step: a bind is split, a
    loop over the same list is related body by body, a [let] on equal
    tuples is unfolded, and each step is related by a lemma of
    [skel_db]. *)
Ltac skel_auto :=
  repeat match goal with
  | H : any _ _ |- _ => clear H
  | H : ?a = ?b |- _ => subst a || subst b
  | |- skel_rel _ (st_bind _ _) (st_bind _ _) => eapply skel_rel_bind; [|intros ???]
  | |- skel_rel _ (st_for ?l _) (st_for ?l _) => apply skel_rel_for; intros ?
  | |- skel_rel _ (st_ret _) (st_ret _) => apply skel_rel_ret; try done
  | |- skel_rel _ (match ?p with _ => _ end) (match ?p with _ => _ end) =>
      destruct p; cbv beta iota
  | |- skel_rel _ _ _ => solve [eauto with skel_db]
  | |- skel_rel any _ _ =>
      eapply skel_rel_mono; [intros ???; exact I | solve [eauto with skel_db]]
  end.

(** [Transform] makes its object take the target's class: [become]
    changes the skeleton, the same way on both sides. *)
Lemma become_skel i j : skel_rel eq (become i j) (become i j).
Proof.
  apply skel_rel_step. intros s1 s2 Hs. split; [|done]. unfold become, st_exec; simpl.
  pose proof (skel_lookup s1 s2 i Hs) as Hi. pose proof (skel_lookup s1 s2 j Hs) as Hj.
  pose proof Hs as Hs'; injection Hs' as Hst Hn Ht.
  destruct (sc_store s1 !! i) as [mi1|], (sc_store s2 !! i) as [mi2|]; simpl in Hi; try discriminate;
    destruct (sc_store s1 !! j) as [mj1|], (sc_store s2 !! j) as [mj2|]; simpl in Hj;
    try discriminate; try done.
  injection Hi as _ Hi. injection Hj as Hj _. unfold skel, set_store; simpl.
  rewrite !fmap_insert, Hst, Hn, Ht. unfold node; simpl. by rewrite Hi, Hj.
Qed.

#[export] Hint Resolve become_skel : skel_db.

Lemma add_from_anims_neutral curr anims : neutral (add_from_anims curr anims).
Proof.
  revert curr. induction anims as [|a anims IH]; intros curr; simpl; [apply neutral_ret|].
  destruct (_ || _); neutral_auto.
Qed.

#[export] Hint Resolve add_from_anims_neutral : skel_db.

Lemma setup_scene_neutral a : neutral (setup_scene a).
Proof. unfold setup_scene. neutral_auto. Qed.
Lemma clean_up_neutral a : neutral (clean_up a).
Proof. unfold clean_up. neutral_auto. Qed.

#[export] Hint Resolve setup_scene_neutral clean_up_neutral : skel_db.

Lemma anim_finish_skel a : skel_rel any (anim_finish a) (anim_finish a).
Proof. destruct a; simpl; skel_auto. Qed.

#[export] Hint Resolve anim_finish_skel : skel_db.

(** [Scene.play] of at least one animation returns on both sides; only
    its transforms change the skeleton. *)
Lemma play_skel anims rt : anims <> [] -> skel_rel any (play anims rt) (play anims rt).
Proof. intros Hne. destruct anims as [|a anims]; [done|]. unfold play. skel_auto. Qed.

#[export] Hint Resolve play_skel : skel_db.

Lemma flash_skel flags rt : flags <> [] -> skel_rel any (flash flags rt) (flash flags rt).
Proof. intros Hf. unfold flash. destruct flags; [done|]. skel_auto. Qed.

#[export] Hint Resolve flash_skel : skel_db.


(** ** The stages, for any two renderers

    Each stage of the script relates to itself run with another
    renderer; the stages that return objects return the same ones. *)

Lemma intro_scene_extended_skel M1 M2 :
  skel_rel any (intro_scene_extended M1) (intro_scene_extended M2).
Proof. unfold intro_scene_extended. skel_auto. Qed.
#[export] Hint Resolve intro_scene_extended_skel : skel_db.

Lemma cpu_architecture_overview_skel M1 M2 :
  skel_rel any (cpu_architecture_overview M1) (cpu_architecture_overview M2).
Proof. unfold cpu_architecture_overview. skel_auto. Qed.
#[export] Hint Resolve cpu_architecture_overview_skel : skel_db.

Lemma setup_registers_skel M1 M2 :
  skel_rel eq (setup_registers M1) (setup_registers M2).
Proof. unfold setup_registers. skel_auto. Qed.
#[export] Hint Resolve setup_registers_skel : skel_db.

Lemma place_register_detailed_skel box label val d :
  skel_rel any (place_register_detailed box label val d) (place_register_detailed box label val d).
Proof. unfold place_register_detailed. skel_auto. Qed.
#[export] Hint Resolve place_register_detailed_skel : skel_db.

Lemma setup_registers_detailed_skel M1 M2 :
  skel_rel eq (setup_registers_detailed M1) (setup_registers_detailed M2).
Proof. unfold setup_registers_detailed. skel_auto. Qed.
#[export] Hint Resolve setup_registers_detailed_skel : skel_db.

Lemma setup_memory_and_pc_skel M1 M2 :
  skel_rel eq (setup_memory_and_pc M1) (setup_memory_and_pc M2).
Proof. unfold setup_memory_and_pc. skel_auto. Qed.
#[export] Hint Resolve setup_memory_and_pc_skel : skel_db.

Lemma instruction_fetch_skel M1 M2 memory_cell pc_arrow ir_reg :
  skel_rel any (instruction_fetch M1 memory_cell pc_arrow ir_reg) (instruction_fetch M2 memory_cell pc_arrow ir_reg).
Proof. unfold instruction_fetch. skel_auto. Qed.
#[export] Hint Resolve instruction_fetch_skel : skel_db.

Lemma decode_instruction_skel M1 M2 ir_reg :
  skel_rel eq (decode_instruction M1 ir_reg) (decode_instruction M2 ir_reg).
Proof. unfold decode_instruction. skel_auto. Qed.
#[export] Hint Resolve decode_instruction_skel : skel_db.

Lemma setup_memory_and_pc_detailed_skel M1 M2 :
  skel_rel eq (setup_memory_and_pc_detailed M1) (setup_memory_and_pc_detailed M2).
Proof. unfold setup_memory_and_pc_detailed. skel_auto. Qed.
#[export] Hint Resolve setup_memory_and_pc_detailed_skel : skel_db.

Lemma instruction_fetch_detailed_skel M1 M2 memory_cell pc_arrow ir_reg :
  skel_rel any (instruction_fetch_detailed M1 memory_cell pc_arrow ir_reg) (instruction_fetch_detailed M2 memory_cell pc_arrow ir_reg).
Proof. unfold instruction_fetch_detailed. skel_auto. Qed.
#[export] Hint Resolve instruction_fetch_detailed_skel : skel_db.

Lemma decode_instruction_detailed_skel M1 M2 ir_reg :
  skel_rel eq (decode_instruction_detailed M1 ir_reg) (decode_instruction_detailed M2 ir_reg).
Proof. unfold decode_instruction_detailed. skel_auto. Qed.
#[export] Hint Resolve decode_instruction_detailed_skel : skel_db.

Lemma setup_alu_skel M1 M2 :
  skel_rel eq (setup_alu M1) (setup_alu M2).
Proof. unfold setup_alu. skel_auto. Qed.
#[export] Hint Resolve setup_alu_skel : skel_db.

Lemma operand_fetch_skel M1 M2 ax_reg bx_reg alu :
  skel_rel any (operand_fetch M1 ax_reg bx_reg alu) (operand_fetch M2 ax_reg bx_reg alu).
Proof. unfold operand_fetch. skel_auto. Qed.
#[export] Hint Resolve operand_fetch_skel : skel_db.

Lemma execute_multiplication_skel M1 M2 alu ax_reg bx_reg :
  skel_rel any (execute_multiplication M1 alu ax_reg bx_reg) (execute_multiplication M2 alu ax_reg bx_reg).
Proof. unfold execute_multiplication. skel_auto. Qed.
#[export] Hint Resolve execute_multiplication_skel : skel_db.

Lemma write_back_results_skel M1 M2 alu ax_reg dx_reg :
  skel_rel any (write_back_results M1 alu ax_reg dx_reg) (write_back_results M2 alu ax_reg dx_reg).
Proof. unfold write_back_results. skel_auto. Qed.
#[export] Hint Resolve write_back_results_skel : skel_db.

Lemma setup_alu_detailed_skel M1 M2 :
  skel_rel eq (setup_alu_detailed M1) (setup_alu_detailed M2).
Proof. unfold setup_alu_detailed. skel_auto. Qed.
#[export] Hint Resolve setup_alu_detailed_skel : skel_db.

Lemma operand_fetch_detailed_skel M1 M2 ax_reg bx_reg alu :
  skel_rel any (operand_fetch_detailed M1 ax_reg bx_reg alu) (operand_fetch_detailed M2 ax_reg bx_reg alu).
Proof. unfold operand_fetch_detailed. skel_auto. Qed.
#[export] Hint Resolve operand_fetch_detailed_skel : skel_db.

Lemma execute_multiplication_detailed_skel M1 M2 alu ax_reg bx_reg :
  skel_rel any (execute_multiplication_detailed M1 alu ax_reg bx_reg) (execute_multiplication_detailed M2 alu ax_reg bx_reg).
Proof. unfold execute_multiplication_detailed. skel_auto. Qed.
#[export] Hint Resolve execute_multiplication_detailed_skel : skel_db.

Lemma write_back_results_detailed_skel M1 M2 alu ax_reg dx_reg :
  skel_rel any (write_back_results_detailed M1 alu ax_reg dx_reg) (write_back_results_detailed M2 alu ax_reg dx_reg).
Proof. unfold write_back_results_detailed. skel_auto. Qed.
#[export] Hint Resolve write_back_results_detailed_skel : skel_db.

Lemma update_flags_skel M1 M2 :
  skel_rel any (update_flags M1) (update_flags M2).
Proof. unfold update_flags. skel_auto. Qed.
#[export] Hint Resolve update_flags_skel : skel_db.

Lemma final_summary_skel M1 M2 ax_reg dx_reg :
  skel_rel any (final_summary M1 ax_reg dx_reg) (final_summary M2 ax_reg dx_reg).
Proof. unfold final_summary. skel_auto. Qed.
#[export] Hint Resolve final_summary_skel : skel_db.

Lemma update_flags_detailed_skel M1 M2 :
  skel_rel any (update_flags_detailed M1) (update_flags_detailed M2).
Proof. unfold update_flags_detailed. skel_auto. Qed.
#[export] Hint Resolve update_flags_detailed_skel : skel_db.

Lemma performance_analysis_skel M1 M2 :
  skel_rel any (performance_analysis M1) (performance_analysis M2).
Proof. unfold performance_analysis. skel_auto. Qed.
#[export] Hint Resolve performance_analysis_skel : skel_db.

Lemma final_summary_extended_skel M1 M2 ax_reg dx_reg :
  skel_rel any (final_summary_extended M1 ax_reg dx_reg) (final_summary_extended M2 ax_reg dx_reg).
Proof. unfold final_summary_extended. skel_auto. Qed.
#[export] Hint Resolve final_summary_extended_skel : skel_db.

(** ** The whole script *)

Lemma skel_rel_raise {A B} (R : A -> B -> Prop) e : skel_rel R (st_raise e) (st_raise e).
Proof. by intros s1 s2 Hs. Qed.

Lemma interrupt_at_skel k i : skel_rel any (interrupt_at k i) (interrupt_at k i).
Proof. unfold interrupt_at. destruct (i =? k)%nat; [apply skel_rel_raise | by apply skel_rel_ret]. Qed.

#[export] Hint Resolve interrupt_at_skel : skel_db.

(** [construct] run with two renderers, and the same probe after each
    stage: the same objects, groups and outcome. *)
Lemma construct_with_skel M1 M2 probe :
  (forall k, skel_rel any (probe k) (probe k)) ->
  skel_rel any (construct_with M1 probe) (construct_with M2 probe).
Proof. intros Hp. unfold construct_with. skel_auto. Qed.

Lemma construct_skel M1 M2 : skel_rel any (construct M1) (construct M2).
Proof. unfold construct. apply construct_with_skel. intros k. by apply skel_rel_ret. Qed.

(** C2: [MUL8086Animation.construct] returns, without raising, whatever
    the text renderer: the renderer moves objects and changes which ones
    the position-based clean-ups remove, but no step that can raise
    ([group[k]], [Mobject.add], [play()] of no animation) depends on it,
    and it ends with the objects and groups of the reference run. *)
Theorem construct_returns M :
  st_eval (construct M) empty_scene = Ok tt /\
  skel (st_exec (construct M) empty_scene) = skel (st_exec (construct ref_metrics) empty_scene).
Proof.
  assert (Href : st_eval (construct ref_metrics) empty_scene = Ok tt) by (vm_compute; reflexivity).
  destruct (construct_skel M ref_metrics empty_scene empty_scene eq_refl) as [Hs H].
  rewrite Href in H. split; [|exact Hs].
  destruct (st_eval (construct M) empty_scene) as [[]|e]; [reflexivity | exact (False_ind _ H)].
Qed.

Lemma after_stage_skel M k : skel (after_stage M k) = skel (after_stage ref_metrics k).
Proof.
  destruct (construct_with_skel M ref_metrics (interrupt_at k) (interrupt_at_skel k)
              empty_scene empty_scene eq_refl) as [H _].
  exact H.
Qed.

Lemma after_stage_time M k : sc_time (after_stage M k) = sc_time (after_stage ref_metrics k).
Proof. exact (f_equal sk_time (after_stage_skel M k)). Qed.

(** C5: the timeline does not depend on the renderer: for every text
    renderer, the clock at the end of each of the thirteen stages is the
    one of the reference run, and the video lasts 153.8 seconds. *)
Theorem timeline_any_renderer M :
  map (fun k => sk_time (skel (after_stage M k))) (seq 1 13) =
  [13; 319 # 10; 449 # 10; 449 # 10; 277 # 5; 316 # 5; 316 # 5; 73; 93; 1043 # 10;
   1203 # 10; 684 # 5; 769 # 5] /\
  sk_time (skel (final_scene M)) = 769 # 5.
Proof.
  unfold skel. cbn [sk_time].
  rewrite (map_ext _ _ (after_stage_time M)).
  rewrite <- (after_stage_unreached M 0), after_stage_time by lia.
  vm_compute. split; reflexivity.
Qed.
